(** * form: the encoder of luoxiaojun1992/form, embedded in Rocq

    The development follows the Go sources file by file:
    - [options.go]: [Options], [Validate], [IsValid];
    - [encode.go]: the [Encoder] and its fluent setters, the reflective
      walk [encodeValue] with its helpers, [fieldInfo] and [findField];
    - the key escaping of the flattener, whose Go file ([node.go]) is not
      part of the sources and is modelled from the specification.

    Go values are seen through the observations the encoder makes of a
    [reflect.Value]: its kind, the queries on its type, its payload, and
    the permission bits reflect keeps in the value's flag. *)

From stdpp Require Import gmap strings list fin_maps pretty.
From Stdlib Require Import ZArith Ascii String.

Set Warnings "-register-all".
Open Scope Z_scope.
Open Scope string_scope.

(** ** options.go *)

(** A Go [rune] is an [int32]; the fields are only compared with [0]. *)
Definition rune := Z.

Definition standardZeros := false.
Definition standardTolerant := false.
Definition standardCaseless := false.
Definition StandardDelimiter : rune := 46.   (* '.' *)
Definition StandardEscape : rune := 92.      (* '\\' *)
Definition StandardImplicitKey : string := "_".
Definition StandardOmittedKey : string := "-".

Record Options := mkOptions {
  unexported : Z;
  Zeros : bool;
  Tolerant : bool;
  Caseless : bool;
  Delimiter : rune;
  Escape : rune;
  ImplicitKey : string;
  OmittedKey : string
}.

Global Instance Options_eq_dec : EqDecision Options.
Proof. solve_decision. Defined.

(** [Options{}]: every field at the zero value of its type. *)
Definition Options_zero : Options := mkOptions 0 false false false 0 0 "" "".

Definition MakeStandardOptions : Options :=
  {| unexported := 0;
     Zeros := standardZeros;
     Tolerant := standardTolerant;
     Caseless := standardCaseless;
     Delimiter := StandardDelimiter;
     Escape := StandardEscape;
     ImplicitKey := StandardImplicitKey;
     OmittedKey := StandardOmittedKey |}.

Definition Default : Options := MakeStandardOptions.

(** The error values of the package; [errors.New] makes each a distinct
    object, and callers compare them by identity. *)
Inductive error :=
  | ErrInvalidOptions
  | ErrInvalidDelimiter
  | ErrInvalidEscape
  | ErrInvalidImplicitKey
  | ErrInvalidOmittedKey.

Global Instance error_eq_dec : EqDecision error.
Proof. solve_decision. Defined.

Definition Error (err : error) : string :=
  match err with
  | ErrInvalidOptions => "invalid form options"
  | ErrInvalidDelimiter => "invalid form delimiter"
  | ErrInvalidEscape => "invalid form escape"
  | ErrInvalidImplicitKey => "invalid form implicit key"
  | ErrInvalidOmittedKey => "invalid form omitted key"
  end.

(** [Validate]; the Go [nil] error is [None]. *)
Definition Validate (o : Options) : option error :=
  if decide (o = Options_zero) then Some ErrInvalidOptions
  else if decide (Delimiter o = 0) then Some ErrInvalidDelimiter
  else if decide (Escape o = 0) then Some ErrInvalidEscape
  else if decide (ImplicitKey o = "") then Some ErrInvalidImplicitKey
  else if decide (OmittedKey o = "") then Some ErrInvalidOmittedKey
  else None.

Definition IsValid (o : Options) : bool :=
  bool_decide (Validate o = None).

(** [MustValidate] panics with the validation error, or returns [o]. *)
Definition MustValidate (o : Options) : error + Options :=
  match Validate o with
  | Some err => inl err
  | None => inr o
  end.

(** ** Panics

    A Go call either returns or panics.  [recover] hands the panic value to
    [fmt.Errorf("%v", r)], so only its [%v] rendering is kept. *)
Inductive result (A : Type) :=
  | Ok (a : A)
  | Panic (r : string).
Arguments Ok {A} a.
Arguments Panic {A} r.

Global Instance result_ret : MRet result := fun _ a => Ok a.
Global Instance result_bind : MBind result := fun _ _ f m =>
  match m with
  | Ok a => f a
  | Panic r => Panic r
  end.

(** ** The reflect view of Go values *)
Module reflect.

Inductive Kind :=
  | Invalid | Bool
  | Int | Int8 | Int16 | Int32 | Int64
  | Uint | Uint8 | Uint16 | Uint32 | Uint64 | Uintptr
  | Float32 | Float64 | Complex64 | Complex128
  | Array | Chan | Func | Interface | Map | Ptr | Slice
  | String | Struct | UnsafePointer.

Global Instance Kind_eq_dec : EqDecision Kind.
Proof. solve_decision. Defined.

(** [Kind.String]. *)
Definition KindString (k : Kind) : string :=
  match k with
  | Invalid => "invalid" | Bool => "bool"
  | Int => "int" | Int8 => "int8" | Int16 => "int16"
  | Int32 => "int32" | Int64 => "int64"
  | Uint => "uint" | Uint8 => "uint8" | Uint16 => "uint16"
  | Uint32 => "uint32" | Uint64 => "uint64" | Uintptr => "uintptr"
  | Float32 => "float32" | Float64 => "float64"
  | Complex64 => "complex64" | Complex128 => "complex128"
  | Array => "array" | Chan => "chan" | Func => "func"
  | Interface => "interface" | Map => "map" | Ptr => "ptr"
  | Slice => "slice" | String => "string" | Struct => "struct"
  | UnsafePointer => "unsafe.Pointer"
  end.

(** The types the encoder asks [ConvertibleTo] about (the package
    variables [timeType], [timePtrType] and [urlType]). *)
Inductive wellKnown := timeType | timePtrType | urlType.

(** What the encoder asks of a [reflect.Type]. *)
Record rtype := mkType {
  TypeString : string;               (* t.String() *)
  TypeKind : Kind;                   (* t.Kind() *)
  ConvertibleTo : wellKnown -> bool; (* t.ConvertibleTo(u) *)
  ElemKind : Kind                    (* t.Elem().Kind(), where defined *)
}.

(** The permission bits of a [reflect.Value]'s flag. *)
Record flag := mkFlag {
  flagStickyRO : bool;  (* obtained via an unexported, not embedded field *)
  flagEmbedRO : bool;   (* obtained via an unexported embedded field *)
  flagAddr : bool       (* v.CanAddr() *)
}.

Definition flagRO (f : flag) : bool := flagStickyRO f || flagEmbedRO f.

(** The flag of [reflect.ValueOf(x)]. *)
Definition flagValueOf : flag := mkFlag false false false.

(** A struct field as [t.Field(i)] describes it.  The tag is kept as its
    key/value pairs, [Get] returning the value of the first pair with the
    key, or the empty string. *)
Definition StructTag := list (string * string).

Fixpoint Get (tag : StructTag) (key : string) : string :=
  match tag with
  | [] => ""
  | (k, v) :: rest => if decide (k = key) then v else Get rest key
  end.

Record StructField := mkField {
  Name : string;
  PkgPath : string;
  Tag : StructTag;
  Anonymous : bool
}.

(** The result of [v.Interface().(encoding.TextMarshaler)] followed, when
    the assertion holds, by the call of [MarshalText]: [None] when the
    assertion fails, [Some (inl bs)] when it returned [bs, nil] and
    [Some (inr msg)] when it returned an error rendered as [msg]. *)
Definition textMarshaler := option (string + string).

(** Per value: the name of its type and the marshalers found on the
    value itself and on a pointer to it. *)
Record meta := mkMeta {
  typeName : string;
  valueMarshal : textMarshaler;
  addrMarshal : textMarshaler
}.

Inductive intKind := KInt | KInt8 | KInt16 | KInt32 | KInt64.
Inductive uintKind := KUint | KUint8 | KUint16 | KUint32 | KUint64 | KUintptr.
Inductive floatKind := KFloat32 | KFloat64.
Inductive complexKind := KComplex64 | KComplex128.

(** A floating-point or complex payload enters the encoder through two
    observations only: whether it equals zero, and its text, as
    [strconv.FormatFloat(_, 'g', -1, bits)] or [fmt.Sprintf("%g", _)]
    print it. *)
Record number := mkNumber { isZero : bool; text : string }.

End reflect.

(** [time.Time], through the accessors [encodeTime] and [isEmptyValue]
    call; [Format] is the library's formatter at a given layout. *)
Module time.
Record Time := mkTime {
  Year : Z; Month : Z; Day : Z;
  Hour : Z; Minute : Z; Second : Z; Nanosecond : Z;
  IsZero : bool;
  Format : string -> string
}.
End time.

(** A struct type may convert to [time.Time] or to [url.URL]; the
    converted value is then what [v.Convert(_).Interface()] returns, the
    URL through its [String()]. *)
Inductive conversion :=
  | NoConv
  | ToTime (t : time.Time)
  | ToURL (u : string).

(** Go data as the encoder can observe it.  The constructor fixes the
    kind.  In [VPtr] the boolean tells whether the pointer type converts
    to [*time.Time]; [VSlice] records the kind of its element type, which
    an empty slice has as well.  [Zero] is the zero [reflect.Value], of
    kind [Invalid].

    [eqZero] in [VStruct] is the outcome of
    [reflect.DeepEqual(v, reflect.Zero(t))] in [isEmptyValue]: the call
    compares the two [reflect.Value] headers, whose data pointers and flag
    words are outside this embedding, so the outcome is carried with the
    struct. *)
Inductive data :=
  | Zero
  | VBool (m : reflect.meta) (b : bool)
  | VInt (m : reflect.meta) (k : reflect.intKind) (i : Z)
  | VUint (m : reflect.meta) (k : reflect.uintKind) (u : Z)
  | VFloat (m : reflect.meta) (k : reflect.floatKind) (f : reflect.number)
  | VComplex (m : reflect.meta) (k : reflect.complexKind) (c : reflect.number)
  | VString (m : reflect.meta) (s : string)
  | VArray (m : reflect.meta) (elems : list data)
  | VSlice (m : reflect.meta) (ek : reflect.Kind) (elems : list data)
  | VMap (m : reflect.meta) (entries : list (data * data))
  | VPtr (m : reflect.meta) (toTimePtr : bool) (elem : option data)
  | VInterface (m : reflect.meta) (elem : option data)
  | VStruct (m : reflect.meta) (c : conversion)
            (fields : list (reflect.StructField * data)) (eqZero : bool)
  | VChan (m : reflect.meta)
  | VFunc (m : reflect.meta)
  | VUnsafePointer (m : reflect.meta).

(** *** Observations on the data *)

Definition metaOf (d : data) : reflect.meta :=
  match d with
  | Zero => reflect.mkMeta "" None None
  | VBool m _ | VInt m _ _ | VUint m _ _ | VFloat m _ _ | VComplex m _ _
  | VString m _ | VArray m _ | VSlice m _ _ | VMap m _ | VPtr m _ _
  | VInterface m _ | VStruct m _ _ _ | VChan m | VFunc m
  | VUnsafePointer m => m
  end.

Definition intKindOf (k : reflect.intKind) : reflect.Kind :=
  match k with
  | reflect.KInt => reflect.Int | reflect.KInt8 => reflect.Int8
  | reflect.KInt16 => reflect.Int16 | reflect.KInt32 => reflect.Int32
  | reflect.KInt64 => reflect.Int64
  end.

Definition uintKindOf (k : reflect.uintKind) : reflect.Kind :=
  match k with
  | reflect.KUint => reflect.Uint | reflect.KUint8 => reflect.Uint8
  | reflect.KUint16 => reflect.Uint16 | reflect.KUint32 => reflect.Uint32
  | reflect.KUint64 => reflect.Uint64 | reflect.KUintptr => reflect.Uintptr
  end.

(** [v.Kind()]. *)
Definition KindOf (d : data) : reflect.Kind :=
  match d with
  | Zero => reflect.Invalid
  | VBool _ _ => reflect.Bool
  | VInt _ k _ => intKindOf k
  | VUint _ k _ => uintKindOf k
  | VFloat _ reflect.KFloat32 _ => reflect.Float32
  | VFloat _ reflect.KFloat64 _ => reflect.Float64
  | VComplex _ reflect.KComplex64 _ => reflect.Complex64
  | VComplex _ reflect.KComplex128 _ => reflect.Complex128
  | VString _ _ => reflect.String
  | VArray _ _ => reflect.Array
  | VSlice _ _ _ => reflect.Slice
  | VMap _ _ => reflect.Map
  | VPtr _ _ _ => reflect.Ptr
  | VInterface _ _ => reflect.Interface
  | VStruct _ _ _ _ => reflect.Struct
  | VChan _ => reflect.Chan
  | VFunc _ => reflect.Func
  | VUnsafePointer _ => reflect.UnsafePointer
  end.

Definition convertible (d : data) (u : reflect.wellKnown) : bool :=
  match d, u with
  | VStruct _ (ToTime _) _ _, reflect.timeType => true
  | VStruct _ (ToURL _) _ _, reflect.urlType => true
  | VPtr _ b _, reflect.timePtrType => b
  | _, _ => false
  end.

Definition zeroValueType : string :=
  "reflect: call of reflect.Value.Type on zero Value".

(** [v.Type()]; it panics on the zero Value. *)
Definition TypeOf (d : data) : result reflect.rtype :=
  match d with
  | Zero => Panic zeroValueType
  | _ => Ok {| reflect.TypeString := reflect.typeName (metaOf d);
               reflect.TypeKind := KindOf d;
               reflect.ConvertibleTo := convertible d;
               reflect.ElemKind :=
                 match d with VSlice _ ek _ => ek | _ => reflect.Invalid end |}
  end.

(** *** The flag of a value reached from another one

    [Field] inherits the sticky bit and the addressability of the struct
    and marks an unexported field read-only; [Elem] of a pointer keeps the
    read-only bits and yields an addressable value; the other accessors
    collapse the read-only bits into the sticky one. *)

Definition flagField (fl : reflect.flag) (f : reflect.StructField) : reflect.flag :=
  let private := bool_decide (reflect.PkgPath f ≠ "") in
  {| reflect.flagStickyRO :=
       reflect.flagStickyRO fl || (private && negb (reflect.Anonymous f));
     reflect.flagEmbedRO := private && reflect.Anonymous f;
     reflect.flagAddr := reflect.flagAddr fl |}.

Definition flagElemPtr (fl : reflect.flag) : reflect.flag :=
  {| reflect.flagStickyRO := reflect.flagStickyRO fl;
     reflect.flagEmbedRO := reflect.flagEmbedRO fl;
     reflect.flagAddr := true |}.

Definition flagElemInterface (fl : reflect.flag) : reflect.flag :=
  {| reflect.flagStickyRO := reflect.flagRO fl;
     reflect.flagEmbedRO := false;
     reflect.flagAddr := false |}.

Definition flagIndexSlice (fl : reflect.flag) : reflect.flag :=
  {| reflect.flagStickyRO := reflect.flagRO fl;
     reflect.flagEmbedRO := false;
     reflect.flagAddr := true |}.

Definition flagIndexArray (fl : reflect.flag) : reflect.flag :=
  {| reflect.flagStickyRO := reflect.flagRO fl;
     reflect.flagEmbedRO := false;
     reflect.flagAddr := reflect.flagAddr fl |}.

(** [MapKeys] and [MapIndex]. *)
Definition flagMap (fl : reflect.flag) : reflect.flag :=
  {| reflect.flagStickyRO := reflect.flagRO fl;
     reflect.flagEmbedRO := false;
     reflect.flagAddr := false |}.

(** What [marshalValue] looks at in a [reflect.Value]: its type, its flag,
    the marshaler found by the type assertion, and [v.Addr()] when
    [v.CanAddr()]. *)
Inductive Value :=
  mkValue (vType : reflect.rtype) (vFlag : reflect.flag)
          (vMarshal : reflect.textMarshaler) (vAddr : option Value).

(** [reflect.PtrTo(t)]: a pointer type converts to [*time.Time] when its
    base type converts to [time.Time]. *)
Definition PtrTo (t : reflect.rtype) : reflect.rtype :=
  {| reflect.TypeString := "*" ++ reflect.TypeString t;
     reflect.TypeKind := reflect.Ptr;
     reflect.ConvertibleTo := fun u =>
       match u with
       | reflect.timePtrType => reflect.ConvertibleTo t reflect.timeType
       | _ => false
       end;
     reflect.ElemKind := reflect.TypeKind t |}.

(** [v.Addr()] keeps the read-only bits and is not itself addressable. *)
Definition AddrOf (t : reflect.rtype) (fl : reflect.flag) (d : data) : Value :=
  mkValue (PtrTo t)
          {| reflect.flagStickyRO := reflect.flagStickyRO fl;
             reflect.flagEmbedRO := reflect.flagEmbedRO fl;
             reflect.flagAddr := false |}
          (reflect.addrMarshal (metaOf d)) None.

Definition valueOf (t : reflect.rtype) (fl : reflect.flag) (d : data) : Value :=
  mkValue t fl (reflect.valueMarshal (metaOf d))
          (if reflect.flagAddr fl then Some (AddrOf t fl d) else None).

(** ** strings and strconv helpers *)

(** [strings.SplitN(s, sep, 2)] for a one-byte separator: the text before
    the first separator and the text after it, or [s] alone. *)
Fixpoint cut (sep : ascii) (s : string) : option (string * string) :=
  match s with
  | EmptyString => None
  | String c s' =>
      if decide (c = sep) then Some (EmptyString, s')
      else match cut sep s' with
           | Some (a, b) => Some (String c a, b)
           | None => None
           end
  end.

Definition SplitN2 (s : string) (sep : ascii) : list string :=
  match cut sep s with
  | Some (a, b) => [a; b]
  | None => [s]
  end.

(** [strings.TrimPrefix(s, p)] and [strings.TrimSuffix(s, p)] for a
    one-byte [p]. *)
Definition TrimPrefix (s : string) (p : ascii) : string :=
  match s with
  | String c s' => if decide (c = p) then s' else s
  | EmptyString => s
  end.

Fixpoint TrimSuffix (s : string) (p : ascii) : string :=
  match s with
  | EmptyString => EmptyString
  | String c EmptyString => if decide (c = p) then EmptyString else s
  | String c s' => String c (TrimSuffix s' p)
  end.

Definition FormatBool (b : bool) : string := if b then "true" else "false".

(** [strconv.FormatInt(i, 10)], [strconv.FormatUint(u, 10)] and
    [strconv.Itoa(i)]: decimal digits, a minus sign when negative. *)
Definition FormatInt (i : Z) : string := pretty i.
Definition FormatUint (u : Z) : string := pretty u.
Definition Itoa (i : Z) : string := pretty i.

(** [string(v.Bytes())] of a slice of bytes. *)
Definition byteOf (d : data) : ascii :=
  match d with
  | VUint _ _ u => ascii_of_N (Z.to_N u)
  | _ => Ascii.zero
  end.

Definition Bytes (elems : list data) : string :=
  string_of_list_ascii (map byteOf elems).

(** ** node.go: the declarations [encode.go] relies on *)

(** Modelled from the spec: the type [node] of [node.go], a file that is
    not part of the sources.  "Node: a tagged union, either a Scalar (a
    string, the literal encoded form of a leaf value) or a Composite (a
    mapping from string key to Node)."  In [encode.go] a node is built
    with [node{}], [n[k] = x] and [delete(n, k)], and [encodeValue]
    returns either a string or a node. *)
Inductive iface :=
  | IString (s : string)
  | INode (n : gmap string iface).

Abbreviation node := (gmap string iface).

(** The functions of [node.go], a file that is not part of the sources,
    are parameters of the encoder: [getNode], [getString], and the
    serialisation [n.values(d, e).Encode()]. *)
Class NodeFile := {
  getNode : iface -> result node;
  getString : iface -> result string;
  valuesEncode : node -> rune -> rune -> string
}.

(** [strings.ToLower], a parameter of [findField]. *)
Class Strings := { ToLower : string -> string }.

(** ** encode.go *)

(** An [io.Writer]: what has been written so far, and how the writer
    answers a write (bytes accepted, error). *)
Record Writer := mkWriter {
  written : list string;
  answer : string -> Z * option string
}.

Definition WriteString (w : Writer) (s : string) : Writer * (Z * option string) :=
  let '(l, err) := answer w s in
  (mkWriter (written w ++ [substring 0 (Z.to_nat l) s]) (answer w), (l, err)).

Record Encoder := mkEncoder {
  w : Writer;
  options :> Options
}.

Definition NewEncoder (w : Writer) : Encoder := mkEncoder w Default.

(** The setters have a pointer receiver: they update the [Encoder] stored
    at [e] and return [e]. *)
Definition loc := positive.

Definition nilDereference : string :=
  "runtime error: invalid memory address or nil pointer dereference".

Definition setDelimiter (r : rune) (o : Options) : Options :=
  mkOptions (unexported o) (Zeros o) (Tolerant o) (Caseless o) r (Escape o)
            (ImplicitKey o) (OmittedKey o).

Definition setEscape (r : rune) (o : Options) : Options :=
  mkOptions (unexported o) (Zeros o) (Tolerant o) (Caseless o) (Delimiter o) r
            (ImplicitKey o) (OmittedKey o).

Definition setZeros (z : bool) (o : Options) : Options :=
  mkOptions (unexported o) z (Tolerant o) (Caseless o) (Delimiter o) (Escape o)
            (ImplicitKey o) (OmittedKey o).

Definition DelimitWith (e : loc) (r : rune) (h : gmap loc Encoder)
  : result (loc * gmap loc Encoder) :=
  match h !! e with
  | Some enc => Ok (e, <[e := mkEncoder (w enc) (setDelimiter r enc)]> h)
  | None => Panic nilDereference
  end.

Definition EscapeWith (e : loc) (r : rune) (h : gmap loc Encoder)
  : result (loc * gmap loc Encoder) :=
  match h !! e with
  | Some enc => Ok (e, <[e := mkEncoder (w enc) (setEscape r enc)]> h)
  | None => Panic nilDereference
  end.

Definition KeepZeros (e : loc) (z : bool) (h : gmap loc Encoder)
  : result (loc * gmap loc Encoder) :=
  match h !! e with
  | Some enc => Ok (e, <[e := mkEncoder (w enc) (setZeros z enc)]> h)
  | None => Panic nilDereference
  end.

Definition skipTextMarshalling (t : reflect.rtype) : bool :=
  reflect.ConvertibleTo t reflect.timeType
  || reflect.ConvertibleTo t reflect.timePtrType.

Definition readOnlyInterface : string :=
  "reflect.Value.Interface: cannot return value obtained from unexported field or method".

(** [v.Interface()] panics on a read-only value. *)
Definition Interface {A} (fl : reflect.flag) (a : A) : result A :=
  if reflect.flagRO fl then Panic readOnlyInterface else Ok a.

Fixpoint marshalValue (v : Value) : result (string * bool) :=
  match v with
  | mkValue t fl marshal addr =>
      if skipTextMarshalling t then Ok ("", false)
      else
        tm ← Interface fl marshal;
        match tm, addr with
        | None, None => Ok ("", false)
        | None, Some p => marshalValue p
        | Some (inr err), _ => Panic err
        | Some (inl bs), _ => Ok (bs, true)
        end
  end.

(** [v.IsNil()] of a pointer or interface. *)
Definition IsNil (o : option data) : bool :=
  match o with
  | None => true
  | Some _ => false
  end.

Definition isEmptyValue (fl : reflect.flag) (d : data) : result bool :=
  match d with
  | Zero => Panic zeroValueType
  | VArray _ l | VSlice _ _ l => Ok (bool_decide (List.length l = 0%nat))
  | VMap _ l => Ok (bool_decide (List.length l = 0%nat))
  | VString _ s => Ok (bool_decide (String.length s = 0%nat))
  | VBool _ b => Ok (negb b)
  | VInt _ _ i => Ok (bool_decide (i = 0))
  | VUint _ _ u => Ok (bool_decide (u = 0))
  | VFloat _ _ f | VComplex _ _ f => Ok (reflect.isZero f)
  | VInterface _ o | VPtr _ _ o => Ok (IsNil o)
  | VStruct _ (ToTime t) _ _ => t' ← Interface fl t; Ok (time.IsZero t')
  | VStruct _ _ _ eqZero => Ok eqZero
  | VChan _ | VFunc _ | VUnsafePointer _ => Ok false
  end.

Global Instance result_fmap : FMap result := fun _ _ f m =>
  match m with
  | Ok a => Ok (f a)
  | Panic r => Panic r
  end.

(** The message of the two [panic] statements of the encoder. *)
Definition unsupportedKind (t : reflect.rtype) : string :=
  reflect.TypeString t ++ " has unsupported kind "
  ++ reflect.KindString (reflect.TypeKind t).

Definition fieldInfo (o : Options) (f : reflect.StructField) : string * bool :=
  if decide (reflect.PkgPath f ≠ "") then (OmittedKey o, false)
  else
    let k := reflect.Name f in
    let tag := reflect.Get (reflect.Tag f) "form" in
    if decide (tag = "") then (k, false)
    else
      let ps := SplitN2 tag "," in
      let k := if decide (nth 0 ps "" ≠ "") then nth 0 ps "" else k in
      let oe := if decide (List.length ps = 2%nat)
                then bool_decide (nth 1 ps "" = "omitempty") else false in
      (k, oe).

(** [encodeTime]: [t] is [v.Convert(timeType).Interface().(time.Time)]. *)
Definition encodeTime (fl : reflect.flag) (t : time.Time) : result string :=
  t ← Interface fl t;
  if bool_decide (time.Year t = 0)
     && (bool_decide (time.Month t = 0) || bool_decide (time.Month t = 1))
     && (bool_decide (time.Day t = 0) || bool_decide (time.Day t = 1))
  then Ok (time.Format t "15:04:05.999999999Z07:00")
  else if bool_decide (time.Hour t = 0) && bool_decide (time.Minute t = 0)
          && bool_decide (time.Second t = 0)
          && bool_decide (time.Nanosecond t = 0)
  then Ok (time.Format t "2006-01-02")
  else Ok (time.Format t "2006-01-02T15:04:05.999999999Z07:00").

(** [encodeURL]: [u] is the [String()] of the converted [url.URL]. *)
Definition encodeURL (fl : reflect.flag) (u : string) : result string :=
  Interface fl u.

Definition encodeBasic (t : reflect.rtype) (v : data) : result string :=
  match v with
  | VBool _ b => Ok (FormatBool b)
  | VInt _ _ i => Ok (FormatInt i)
  | VUint _ reflect.KUintptr _ => Panic (unsupportedKind t)
  | VUint _ _ u => Ok (FormatUint u)
  | VFloat _ _ f => Ok (reflect.text f)
  | VComplex _ _ c => Ok (TrimSuffix (TrimPrefix (reflect.text c) "(") ")")
  | VString _ s => Ok s
  | _ => Panic (unsupportedKind t)
  end.

(** The loops of [encodeStruct], [encodeMap], [encodeArray] and
    [encodeSlice], over the recursive call [enc] of [encodeValue]. *)
Section Loops.
Context `{NodeFile}.
Variable enc : reflect.flag -> data -> result iface.

Definition encodeStructWith (o : Options) (fl : reflect.flag)
  : list (reflect.StructField * data) -> node -> result iface :=
  fix loop fs n :=
    match fs with
    | [] => Ok (INode n)
    | (f, fv) :: rest =>
        let '(k, oe) := fieldInfo o f in
        if decide (k = "-") then loop rest n
        else
          empty ← (if oe then isEmptyValue (flagField fl f) fv else Ok false);
          if empty : bool then loop rest (delete k n)
          else x ← enc (flagField fl f) fv; loop rest (<[k := x]> n)
    end.

Definition encodeMapWith (fl : reflect.flag)
  : list (data * data) -> node -> result iface :=
  fix loop entries n :=
    match entries with
    | [] => Ok (INode n)
    | (i, x) :: rest =>
        ki ← enc (flagMap fl) i;
        k ← getString ki;
        y ← enc (flagMap fl) x;
        loop rest (<[k := y]> n)
    end.

(** Shared by [encodeArray] and [encodeSlice]; [fl] is the flag of
    [v.Index(i)]. *)
Definition encodeElemsWith (fl : reflect.flag)
  : list data -> Z -> node -> result iface :=
  fix loop elems i n :=
    match elems with
    | [] => Ok (INode n)
    | x :: rest =>
        y ← enc fl x;
        loop rest (i + 1) (<[Itoa i := y]> n)
    end.

End Loops.

Section Encode.
Context `{NodeFile}.

(** [encodeValue].  The [switch] on the kind is the [match] on the
    constructor.  [v.Elem()] of a nil pointer or interface is the zero
    Value, on which the recursive call panics in [v.Type()]. *)
Fixpoint encodeValue (e : Encoder) (fl : reflect.flag) (v : data) {struct v}
  : result iface :=
  t ← TypeOf v;
  '(s, ok) ← marshalValue (valueOf t fl v);
  if ok : bool then Ok (IString s)
  else
    empty ← (if Zeros e then Ok false else isEmptyValue fl v);
    if empty : bool then Ok (IString "")
    else
      match v with
      | VPtr _ _ (Some x) => encodeValue e (flagElemPtr fl) x
      | VInterface _ (Some x) => encodeValue e (flagElemInterface fl) x
      | VPtr _ _ None | VInterface _ None => Panic zeroValueType
      | VStruct _ (ToTime t') _ _ => IString <$> encodeTime fl t'
      | VStruct _ (ToURL u) _ _ => IString <$> encodeURL fl u
      | VStruct _ NoConv fs _ => encodeStructWith (encodeValue e) e fl fs ∅
      | VSlice _ ek elems =>
          if decide (ek = reflect.Uint8) then Ok (IString (Bytes elems))
          else encodeElemsWith (encodeValue e) (flagIndexSlice fl) elems 0 ∅
      | VArray _ elems =>
          encodeElemsWith (encodeValue e) (flagIndexArray fl) elems 0 ∅
      | VMap _ entries => encodeMapWith (encodeValue e) fl entries ∅
      | Zero | VUint _ reflect.KUintptr _ | VUnsafePointer _ | VChan _
      | VFunc _ => Panic (unsupportedKind t)
      | _ => IString <$> encodeBasic t v
      end.

Definition encodeStruct (e : Encoder) (fl : reflect.flag)
    (fs : list (reflect.StructField * data)) : result iface :=
  encodeStructWith (encodeValue e) e fl fs ∅.

Definition encodeMap (e : Encoder) (fl : reflect.flag)
    (entries : list (data * data)) : result iface :=
  encodeMapWith (encodeValue e) fl entries ∅.

Definition encodeArray (e : Encoder) (fl : reflect.flag) (elems : list data)
  : result iface :=
  encodeElemsWith (encodeValue e) (flagIndexArray fl) elems 0 ∅.

Definition encodeSlice (e : Encoder) (fl : reflect.flag) (ek : reflect.Kind)
    (elems : list data) : result iface :=
  if decide (ek = reflect.Uint8) then Ok (IString (Bytes elems))
  else encodeElemsWith (encodeValue e) (flagIndexSlice fl) elems 0 ∅.

(** [encodeToNode]: the deferred [recover] turns a panic into the error
    [fmt.Errorf("%v", r)]; the node is then the zero value of its type. *)
Definition encodeToNode (e : Encoder) (v : data) : node * option string :=
  match x ← encodeValue e reflect.flagValueOf v; getNode x with
  | Ok n => (n, None)
  | Panic r => (∅, Some r)
  end.

Definition Encode (e : Encoder) (dst : data) : Writer * option string :=
  match encodeToNode e dst with
  | (_, Some err) => (w e, Some err)
  | (n, None) =>
      let s := valuesEncode n (Delimiter e) (Escape e) in
      let '(w', (l, err)) := WriteString (w e) s in
      match err with
      | Some err => (w', Some err)
      | None =>
          if decide (l ≠ Z.of_nat (String.length s))
          then (w', Some "could not write data completely")
          else (w', None)
      end
  end.

End Encode.

(** *** findField *)

Section FindField.
Context `{Strings}.

(** The first loop of [findField], from field [i] on: an exact match
    returns the field at once ([inl]); otherwise the loop ends with the
    index kept in [caseInsensitiveMatch] ([inr]). *)
Fixpoint namedFields (o : Options) (n lowerN : string)
    (fs : list (reflect.StructField * data)) (i caseInsensitiveMatch : Z)
  : data + Z :=
  match fs with
  | [] => inr caseInsensitiveMatch
  | (f, fv) :: rest =>
      let k := (fieldInfo o f).1 in
      if decide (k = OmittedKey o)
      then namedFields o n lowerN rest (i + 1) caseInsensitiveMatch
      else if decide (n = k) then inl fv
      else if Caseless o && bool_decide (lowerN = ToLower k)
      then namedFields o n lowerN rest (i + 1) i
      else namedFields o n lowerN rest (i + 1) caseInsensitiveMatch
  end.

(** The second loop, over the recursive search [rec] in the value of an
    embedded field. *)
Definition anonymousFields (rec : data -> option data) (o : Options)
  : list (reflect.StructField * data) -> option data :=
  fix loop fs :=
    match fs with
    | [] => None
    | (f, fv) :: rest =>
        let k := (fieldInfo o f).1 in
        if bool_decide (k = OmittedKey o) || negb (reflect.Anonymous f)
        then loop rest
        else match rec fv with
             | Some ev => Some ev
             | None => loop rest
             end
    end.

(** The body of [findField] on the fields of a struct. *)
Definition findFieldWith (rec : data -> option data) (o : Options)
    (fs : list (reflect.StructField * data)) (n : string) : option data :=
  let lowerN := if Caseless o then ToLower n else "" in
  match namedFields o n lowerN fs 0 (-1) with
  | inl fv => Some fv
  | inr caseInsensitiveMatch =>
      if decide (caseInsensitiveMatch ≠ -1)
      then snd <$> fs !! Z.to_nat caseInsensitiveMatch
      else anonymousFields rec o fs
  end.

(** What the second loop does with the value of an embedded field: it
    follows pointers and interfaces ([fv = fv.Elem()]), skips what is not
    a struct, and calls [findField] on a struct. *)
Fixpoint findEmbedded (o : Options) (n : string) (fv : data) {struct fv}
  : option data :=
  match fv with
  | VPtr _ _ (Some x) | VInterface _ (Some x) => findEmbedded o n x
  | VStruct _ _ fs _ => findFieldWith (findEmbedded o n) o fs n
  | _ => None
  end.

Definition numFieldOf (k : reflect.Kind) : string :=
  "reflect: call of reflect.Value.NumField on " ++ reflect.KindString k
  ++ " Value".

(** [findField]; [(fv, true)] is [Some fv] and [(reflect.Value{}, false)]
    is [None].  [v.Type()] and [v.NumField()] panic off structs. *)
Definition findField (o : Options) (v : data) (n : string)
  : result (option data) :=
  match v with
  | VStruct _ _ fs _ => Ok (findFieldWith (findEmbedded o n) o fs n)
  | Zero => Panic zeroValueType
  | _ => Panic (numFieldOf (KindOf v))
  end.

End FindField.

(** ** The key escaping of the flattener *)
Module Flattener.





End Flattener.

(** ** Vocabulary of the statements *)

(** [marshalValue(v)] as [encodeValue] calls it on the value [v]. *)
Definition customText (fl : reflect.flag) (v : data) : result (string * bool) :=
  t ← TypeOf v; marshalValue (valueOf t fl v).

(** The kinds [encodeValue] rejects by its own [panic]. *)
Definition unsupported (v : data) : bool :=
  match v with
  | VUint _ reflect.KUintptr _ | VUnsafePointer _ | VChan _ | VFunc _ => true
  | _ => false
  end.

Section Visits.
Variable e : Encoder.

(** At [v] the encoder finds no custom text and no zero value to elide,
    and goes on to the [switch] on the kind. *)
Definition dispatches (fl : reflect.flag) (v : data) : Prop :=
  customText fl v = Ok ("", false)
  /\ (if Zeros e then Ok false else isEmptyValue fl v) = Ok false.

(** [visits fl v fl' u]: encoding [v], held with flag [fl], calls
    [encodeValue] on the subvalue [u], held with flag [fl'], unless a
    panic stops the walk before. *)
Inductive visits : reflect.flag -> data -> reflect.flag -> data -> Prop :=
  | visits_here fl v : visits fl v fl v
  | visits_ptr fl m b x fl' u :
      dispatches fl (VPtr m b (Some x)) ->
      visits (flagElemPtr fl) x fl' u ->
      visits fl (VPtr m b (Some x)) fl' u
  | visits_interface fl m x fl' u :
      dispatches fl (VInterface m (Some x)) ->
      visits (flagElemInterface fl) x fl' u ->
      visits fl (VInterface m (Some x)) fl' u
  | visits_field fl m fs eqZero f fv fl' u :
      dispatches fl (VStruct m NoConv fs eqZero) ->
      (f, fv) ∈ fs ->
      (fieldInfo e f).1 ≠ "-" ->
      ((fieldInfo e f).2 = false
       \/ isEmptyValue (flagField fl f) fv = Ok false) ->
      visits (flagField fl f) fv fl' u ->
      visits fl (VStruct m NoConv fs eqZero) fl' u
  | visits_slice fl m ek elems x fl' u :
      dispatches fl (VSlice m ek elems) ->
      ek ≠ reflect.Uint8 ->
      x ∈ elems ->
      visits (flagIndexSlice fl) x fl' u ->
      visits fl (VSlice m ek elems) fl' u
  | visits_array fl m elems x fl' u :
      dispatches fl (VArray m elems) ->
      x ∈ elems ->
      visits (flagIndexArray fl) x fl' u ->
      visits fl (VArray m elems) fl' u
  | visits_map_key fl m entries i x fl' u :
      dispatches fl (VMap m entries) ->
      (i, x) ∈ entries ->
      visits (flagMap fl) i fl' u ->
      visits fl (VMap m entries) fl' u
  | visits_map_value fl m entries i x fl' u :
      dispatches fl (VMap m entries) ->
      (i, x) ∈ entries ->
      visits (flagMap fl) x fl' u ->
      visits fl (VMap m entries) fl' u.

End Visits.

Section Matches.
Context `{Strings}.
Variables (o : Options) (n : string).

(** A field is visible when its key is not the omitted key.  It matches
    the name [n] exactly, without regard to case, or, being embedded,
    through the search in its value. *)
Definition visible (f : reflect.StructField) : Prop :=
  (fieldInfo o f).1 ≠ OmittedKey o.

Definition exactMatch (p : reflect.StructField * data) : Prop :=
  visible p.1 /\ n = (fieldInfo o p.1).1.

Definition caselessMatch (p : reflect.StructField * data) : Prop :=
  visible p.1 /\ ToLower n = ToLower (fieldInfo o p.1).1.

Definition embeddedMatch (p : reflect.StructField * data) : Prop :=
  visible p.1 /\ reflect.Anonymous p.1 = true
  /\ is_Some (findEmbedded o n p.2).

End Matches.

(** ** Instances used to run the definitions on concrete values *)

(** ASCII lower-casing, with which [strings.ToLower] agrees on ASCII
    text. *)
Definition asciiLower (c : ascii) : ascii :=
  let n := nat_of_ascii c in
  if decide (65 <= n <= 90)%nat then ascii_of_nat (n + 32) else c.

Fixpoint lowerASCII (s : string) : string :=
  match s with
  | EmptyString => EmptyString
  | String c s' => String (asciiLower c) (lowerASCII s')
  end.

Definition asciiStrings : Strings := {| ToLower := lowerASCII |}.

(** A [node.go] in which a string becomes the node holding it under the
    empty key, and is its own string form. *)
Definition scalarNodeFile : NodeFile :=
  {| getNode x := match x with
                  | IString _ => Ok {[ "" := x ]}
                  | INode n => Ok n
                  end;
     getString x := match x with
                    | IString s => Ok s
                    | INode _ => Ok ""
                    end;
     valuesEncode _ _ _ := "" |}.

(** A writer that accepts everything. *)
Definition discard : Writer :=
  mkWriter [] (fun s => (Z.of_nat (String.length s), None)).

(** The meta data of a type without [MarshalText]. *)
Definition plain (name : string) : reflect.meta :=
  reflect.mkMeta name None None.

(** An exported field, with the value of its [form] tag. *)
Definition exported (name tag : string) : reflect.StructField :=
  reflect.mkField name "" [("form", tag)] false.


(** ** More of encode.go *)

Section EncodeToString.
Context `{NodeFile}.

(** [EncodeToStringWith] builds [Encoder{nil, o}]; the nil writer is never
    written to, and stands here as a writer that has written nothing. *)
Definition nilWriter : Writer := mkWriter [] (fun _ => (0, Some nilDereference)).

(** The Go pair [(string, error)]. *)
Definition EncodeToStringWith (dst : data) (o : Options) : string * option string :=
  let e := mkEncoder nilWriter o in
  match encodeToNode e dst with
  | (_, Some err) => ("", Some err)
  | (n, None) => (valuesEncode n (Delimiter o) (Escape o), None)
  end.

Definition EncodeToString (dst : data) : string * option string :=
  EncodeToStringWith dst Default.

End EncodeToString.

(** [canIndexOrdinally]; [v.IsValid()] fails on the zero Value only. *)
Fixpoint canIndexOrdinally (v : data) : bool :=
  match v with
  | Zero => false
  | VPtr _ _ (Some x) | VInterface _ (Some x) => canIndexOrdinally x
  | VPtr _ _ None | VInterface _ None => false
  | VSlice _ _ _ | VArray _ _ => true
  | _ => false
  end.

(** ** Induction on data, through the lists and options it nests *)

Definition isLeaf (v : data) : bool :=
  match v with
  | VArray _ _ | VSlice _ _ _ | VMap _ _ | VPtr _ _ _ | VInterface _ _
  | VStruct _ _ _ _ => false
  | _ => true
  end.

Section DataInduction.
Variable P : data -> Prop.
Hypothesis leaf : forall v, isLeaf v = true -> P v.
Hypothesis array : forall m elems, Forall P elems -> P (VArray m elems).
Hypothesis slice : forall m ek elems, Forall P elems -> P (VSlice m ek elems).
Hypothesis map_ : forall m entries,
  Forall (fun p => P p.1 /\ P p.2) entries -> P (VMap m entries).
Hypothesis ptr : forall m b elem,
  match elem with Some x => P x | None => True end -> P (VPtr m b elem).
Hypothesis interface : forall m elem,
  match elem with Some x => P x | None => True end -> P (VInterface m elem).
Hypothesis struct : forall m c fields eqZero,
  Forall (fun p => P p.2) fields -> P (VStruct m c fields eqZero).

Fixpoint data_nested_ind (v : data) : P v :=
  match v with
  | VArray m elems =>
      array m elems
        ((fix all l : Forall P l :=
            match l with
            | [] => @List.Forall_nil _ _
            | x :: l' => @List.Forall_cons _ _ x l' (data_nested_ind x) (all l')
            end) elems)
  | VSlice m ek elems =>
      slice m ek elems
        ((fix all l : Forall P l :=
            match l with
            | [] => @List.Forall_nil _ _
            | x :: l' => @List.Forall_cons _ _ x l' (data_nested_ind x) (all l')
            end) elems)
  | VMap m entries =>
      map_ m entries
        ((fix all l : Forall (fun p => P p.1 /\ P p.2) l :=
            match l with
            | [] => @List.Forall_nil _ _
            | (i, x) :: l' =>
                @List.Forall_cons _ (fun p => P p.1 /\ P p.2) (i, x) l'
                  (conj (data_nested_ind i) (data_nested_ind x)) (all l')
            end) entries)
  | VPtr m b elem =>
      ptr m b elem
        (match elem with
         | Some x => data_nested_ind x
         | None => I
         end)
  | VInterface m elem =>
      interface m elem
        (match elem with
         | Some x => data_nested_ind x
         | None => I
         end)
  | VStruct m c fields eqZero =>
      struct m c fields eqZero
        ((fix all l : Forall (fun p => P p.2) l :=
            match l with
            | [] => @List.Forall_nil _ _
            | (f, fv) :: l' =>
                @List.Forall_cons _ (fun p => P p.2) (f, fv) l'
                  (data_nested_ind fv) (all l')
            end) fields)
  | Zero => leaf Zero eq_refl
  | VBool m b => leaf (VBool m b) eq_refl
  | VInt m k i => leaf (VInt m k i) eq_refl
  | VUint m k u => leaf (VUint m k u) eq_refl
  | VFloat m k f => leaf (VFloat m k f) eq_refl
  | VComplex m k c => leaf (VComplex m k c) eq_refl
  | VString m s => leaf (VString m s) eq_refl
  | VChan m => leaf (VChan m) eq_refl
  | VFunc m => leaf (VFunc m) eq_refl
  | VUnsafePointer m => leaf (VUnsafePointer m) eq_refl
  end.

End DataInduction.

(** ** More vocabulary *)

Section FieldOf.
Context `{Strings}.
Variables (o : Options) (n : string).

(** [matchesName f]: the visible field [f] answers to the name [n],
    exactly or, when [Caseless] is on, up to case. *)
Definition matchesName (f : reflect.StructField) : Prop :=
  visible o f
  /\ (n = (fieldInfo o f).1
      \/ (Caseless o = true /\ ToLower n = ToLower (fieldInfo o f).1)).

(** [fieldOf v fv]: [fv] is the value of a field answering to [n], in the
    struct [v] or in a struct embedded in it, behind pointers and
    interfaces. *)
Inductive fieldOf : data -> data -> Prop :=
  | fieldOf_here m c fs eqZero f fv :
      (f, fv) ∈ fs -> matchesName f ->
      fieldOf (VStruct m c fs eqZero) fv
  | fieldOf_embedded m c fs eqZero f fv ev :
      (f, fv) ∈ fs -> visible o f -> reflect.Anonymous f = true ->
      fieldOf fv ev ->
      fieldOf (VStruct m c fs eqZero) ev
  | fieldOf_ptr m b x ev :
      fieldOf x ev -> fieldOf (VPtr m b (Some x)) ev
  | fieldOf_interface m x ev :
      fieldOf x ev -> fieldOf (VInterface m (Some x)) ev.

End FieldOf.

Section KeyString.
Context `{NodeFile}.

(** [keyString e fl i k]: in a map held with flag [fl], the key [i]
    becomes the string [k]. *)
Definition keyString (e : Encoder) (fl : reflect.flag) (i : data)
    (k : string) : Prop :=
  exists ki, encodeValue e (flagMap fl) i = Ok ki /\ getString ki = Ok k.

End KeyString.

(** An integer value, signed or unsigned, of any width. *)
Definition integerOf (m : reflect.meta)
    (k : reflect.intKind + reflect.uintKind) (i : Z) : data :=
  match k with
  | inl k => VInt m k i
  | inr k => VUint m k i
  end.

Section VisitsFirst.
Context `{NodeFile}.
Variable e : Encoder.

(** [visitsFirst fl v fl' u]: encoding [v] calls [encodeValue] on the
    subvalue [u], and everything the walk encodes before it gets there
    succeeds: the fields, elements or entries that precede, at each level,
    the one the walk goes down into. *)
Inductive visitsFirst : reflect.flag -> data -> reflect.flag -> data -> Prop :=
  | first_here fl v : visitsFirst fl v fl v
  | first_ptr fl m b x fl' u :
      dispatches e fl (VPtr m b (Some x)) ->
      visitsFirst (flagElemPtr fl) x fl' u ->
      visitsFirst fl (VPtr m b (Some x)) fl' u
  | first_interface fl m x fl' u :
      dispatches e fl (VInterface m (Some x)) ->
      visitsFirst (flagElemInterface fl) x fl' u ->
      visitsFirst fl (VInterface m (Some x)) fl' u
  | first_field fl m pre f fv post eqZero fl' u y :
      dispatches e fl (VStruct m NoConv (pre ++ (f, fv) :: post) eqZero) ->
      encodeStruct e fl pre = Ok y ->
      (fieldInfo e f).1 ≠ "-" ->
      ((fieldInfo e f).2 = false
       \/ isEmptyValue (flagField fl f) fv = Ok false) ->
      visitsFirst (flagField fl f) fv fl' u ->
      visitsFirst fl (VStruct m NoConv (pre ++ (f, fv) :: post) eqZero) fl' u
  | first_slice fl m ek pre x post fl' u y :
      dispatches e fl (VSlice m ek (pre ++ x :: post)) ->
      ek ≠ reflect.Uint8 ->
      encodeSlice e fl ek pre = Ok y ->
      visitsFirst (flagIndexSlice fl) x fl' u ->
      visitsFirst fl (VSlice m ek (pre ++ x :: post)) fl' u
  | first_array fl m pre x post fl' u y :
      dispatches e fl (VArray m (pre ++ x :: post)) ->
      encodeArray e fl pre = Ok y ->
      visitsFirst (flagIndexArray fl) x fl' u ->
      visitsFirst fl (VArray m (pre ++ x :: post)) fl' u
  | first_map_key fl m pre i x post fl' u y :
      dispatches e fl (VMap m (pre ++ (i, x) :: post)) ->
      encodeMap e fl pre = Ok y ->
      visitsFirst (flagMap fl) i fl' u ->
      visitsFirst fl (VMap m (pre ++ (i, x) :: post)) fl' u
  | first_map_value fl m pre i x post fl' u y k :
      dispatches e fl (VMap m (pre ++ (i, x) :: post)) ->
      encodeMap e fl pre = Ok y ->
      keyString e fl i k ->
      visitsFirst (flagMap fl) x fl' u ->
      visitsFirst fl (VMap m (pre ++ (i, x) :: post)) fl' u.

End VisitsFirst.

(** The text has no comma. *)
Fixpoint noComma (s : string) : Prop :=
  match s with
  | EmptyString => True
  | String c s' => c ≠ ","%char /\ noComma s'
  end.
(** * Properties *)

(** ** Options *)

Lemma Validate_None (o : Options) :
  Validate o = None <->
  o ≠ Options_zero /\ Delimiter o ≠ 0 /\ Escape o ≠ 0
  /\ ImplicitKey o ≠ "" /\ OmittedKey o ≠ "".
Proof.
  unfold Validate.
  repeat case_decide; split; try discriminate; try tauto; intuition.
Qed.

Lemma IsValid_spec (o : Options) : IsValid o = true <-> Validate o = None.
Proof. unfold IsValid. apply bool_decide_eq_true. Qed.

Local Ltac validate_case :=
  unfold Validate, Options_zero; simpl; repeat case_decide; try done;
  match goal with
  | Hz : mkOptions _ _ _ _ _ _ _ _ = _ |- _ => by inversion Hz
  end.

(** C9.  Validation over its error kinds.  With a legal delimiter, escape,
    implicit key and omitted key (none of them zero or empty), [Validate]
    returns nil for every value of the three switches; putting one of the
    four at its zero value, the others staying legal, yields that field's
    own error; the zero [Options] yields the generic error; the five
    errors are pairwise distinct; and [IsValid] holds exactly when
    [Validate] returns nil. *)
Theorem Validate_table (u : Z) (z t c : bool) (d e : rune) (i k : string) :
  d ≠ 0 -> e ≠ 0 -> i ≠ "" -> k ≠ "" ->
  Validate (mkOptions u z t c d e i k) = None
  /\ Validate (mkOptions u z t c 0 e i k) = Some ErrInvalidDelimiter
  /\ Validate (mkOptions u z t c d 0 i k) = Some ErrInvalidEscape
  /\ Validate (mkOptions u z t c d e "" k) = Some ErrInvalidImplicitKey
  /\ Validate (mkOptions u z t c d e i "") = Some ErrInvalidOmittedKey
  /\ Validate Options_zero = Some ErrInvalidOptions
  /\ NoDup [ErrInvalidOptions; ErrInvalidDelimiter; ErrInvalidEscape;
            ErrInvalidImplicitKey; ErrInvalidOmittedKey]
  /\ (forall o, IsValid o = true <-> Validate o = None).
Proof.
  intros Hd He Hi Hk.
  repeat apply conj.
  - apply Validate_None; simpl; repeat apply conj; try done. by intros [=].
  - validate_case.
  - validate_case.
  - validate_case.
  - validate_case.
  - unfold Validate; by rewrite decide_True.
  - compute_done.
  - intros o; apply IsValid_spec.
Qed.

Lemma Validate_table_witness :
  Validate (mkOptions 0 true false true 46 92 "_" "-") = None
  /\ Validate (mkOptions 0 true false true 0 92 "_" "-")
     = Some ErrInvalidDelimiter.
Proof.
  destruct (Validate_table 0 true false true 46 92 "_" "-")
    as (H1 & H2 & _); [lia | lia | discriminate | discriminate |].
  split; [exact H1 | exact H2].
Defined.

(** ** The fluent setters *)

Lemma setter_frame (h : gmap loc Encoder) (e : loc) (enc enc' : Encoder) :
  h !! e = Some enc ->
  <[e := enc']> h !! e = Some enc'
  /\ forall e', e' ≠ e -> <[e := enc']> h !! e' = h !! e'.
Proof.
  intros _. split; [apply lookup_insert_eq |].
  intros e' Hne. by apply lookup_insert_ne.
Qed.

(** C10.  Each setter, called on the pointer [e] to an encoder [enc],
    returns [e] itself and leaves a store in which every other encoder is
    as before and the encoder at [e] differs from [enc] in one field only:
    [Delimiter] for [DelimitWith], [Escape] for [EscapeWith], [Zeros] for
    [KeepZeros]; the writer and the other options are those of [enc].
    Chaining the three calls sets the three fields. *)
Theorem setters_modify_one_field (h : gmap loc Encoder) (e : loc)
    (enc : Encoder) (r r' : rune) (z : bool) :
  h !! e = Some enc ->
  (exists h1 (enc1 : Encoder),
      DelimitWith e r h = Ok (e, h1)
      /\ h1 !! e = Some enc1
      /\ (forall e', e' ≠ e -> h1 !! e' = h !! e')
      /\ Delimiter enc1 = r
      /\ w enc1 = w enc /\ unexported enc1 = unexported enc
      /\ Zeros enc1 = Zeros enc /\ Tolerant enc1 = Tolerant enc
      /\ Caseless enc1 = Caseless enc /\ Escape enc1 = Escape enc
      /\ ImplicitKey enc1 = ImplicitKey enc
      /\ OmittedKey enc1 = OmittedKey enc)
  /\ (exists h2 (enc2 : Encoder),
      EscapeWith e r h = Ok (e, h2)
      /\ h2 !! e = Some enc2
      /\ (forall e', e' ≠ e -> h2 !! e' = h !! e')
      /\ Escape enc2 = r
      /\ w enc2 = w enc /\ unexported enc2 = unexported enc
      /\ Zeros enc2 = Zeros enc /\ Tolerant enc2 = Tolerant enc
      /\ Caseless enc2 = Caseless enc /\ Delimiter enc2 = Delimiter enc
      /\ ImplicitKey enc2 = ImplicitKey enc
      /\ OmittedKey enc2 = OmittedKey enc)
  /\ (exists h3 (enc3 : Encoder),
      KeepZeros e z h = Ok (e, h3)
      /\ h3 !! e = Some enc3
      /\ (forall e', e' ≠ e -> h3 !! e' = h !! e')
      /\ Zeros enc3 = z
      /\ w enc3 = w enc /\ unexported enc3 = unexported enc
      /\ Tolerant enc3 = Tolerant enc /\ Caseless enc3 = Caseless enc
      /\ Delimiter enc3 = Delimiter enc /\ Escape enc3 = Escape enc
      /\ ImplicitKey enc3 = ImplicitKey enc
      /\ OmittedKey enc3 = OmittedKey enc)
  /\ ('(e1, h1) ← DelimitWith e r h;
      '(e2, h2) ← EscapeWith e1 r' h1;
      KeepZeros e2 z h2)
     = Ok (e, <[e := mkEncoder (w enc)
                       (mkOptions (unexported enc) z (Tolerant enc)
                                  (Caseless enc) r r' (ImplicitKey enc)
                                  (OmittedKey enc))]> h).
Proof.
  intros Hh.
  repeat apply conj.
  - unfold DelimitWith. rewrite Hh. eexists _, _.
    split; [reflexivity |].
    destruct (setter_frame h e enc (mkEncoder (w enc) (setDelimiter r enc)) Hh)
      as [Hat Hother].
    split; [exact Hat |]. split; [exact Hother |]. by repeat split.
  - unfold EscapeWith. rewrite Hh. eexists _, _.
    split; [reflexivity |].
    destruct (setter_frame h e enc (mkEncoder (w enc) (setEscape r enc)) Hh)
      as [Hat Hother].
    split; [exact Hat |]. split; [exact Hother |]. by repeat split.
  - unfold KeepZeros. rewrite Hh. eexists _, _.
    split; [reflexivity |].
    destruct (setter_frame h e enc (mkEncoder (w enc) (setZeros z enc)) Hh)
      as [Hat Hother].
    split; [exact Hat |]. split; [exact Hother |]. by repeat split.
  - unfold DelimitWith, EscapeWith, KeepZeros. rewrite Hh. simpl.
    rewrite lookup_insert_eq. simpl. rewrite lookup_insert_eq. simpl.
    by rewrite !insert_insert_eq.
Qed.

Lemma setters_modify_one_field_witness :
  exists h1 (enc1 : Encoder),
    DelimitWith 1%positive 47 {[ 1%positive := NewEncoder discard ]}
    = Ok (1%positive, h1)
    /\ h1 !! 1%positive = Some enc1
    /\ Delimiter enc1 = 47 /\ Escape enc1 = StandardEscape.
Proof.
  destruct (setters_modify_one_field {[ 1%positive := NewEncoder discard ]}
              1%positive (NewEncoder discard) 47 47 true)
    as [(h1 & enc1 & H1 & H2 & _ & H3 & _ & _ & _ & _ & _ & H4 & _) _].
  - apply lookup_singleton_eq.
  - exists h1, enc1. repeat split; assumption.
Defined.

(** ** The walk of [encodeValue] *)

Section EncodeValue.
Context `{NodeFile}.

Lemma encodeValue_unfold (e : Encoder) (fl : reflect.flag) (v : data) :
  encodeValue e fl v =
  (t ← TypeOf v;
   '(s, ok) ← marshalValue (valueOf t fl v);
   if ok : bool then Ok (IString s)
   else
     empty ← (if Zeros e then Ok false else isEmptyValue fl v);
     if empty : bool then Ok (IString "")
     else
       match v with
       | VPtr _ _ (Some x) => encodeValue e (flagElemPtr fl) x
       | VInterface _ (Some x) => encodeValue e (flagElemInterface fl) x
       | VPtr _ _ None | VInterface _ None => Panic zeroValueType
       | VStruct _ (ToTime t') _ _ => IString <$> encodeTime fl t'
       | VStruct _ (ToURL u) _ _ => IString <$> encodeURL fl u
       | VStruct _ NoConv fs _ => encodeStruct e fl fs
       | VSlice _ ek elems => encodeSlice e fl ek elems
       | VArray _ elems => encodeArray e fl elems
       | VMap _ entries => encodeMap e fl entries
       | Zero | VUint _ reflect.KUintptr _ | VUnsafePointer _ | VChan _
       | VFunc _ => Panic (unsupportedKind t)
       | _ => IString <$> encodeBasic t v
       end).
Proof. destruct v; reflexivity. Qed.

(** [encodeValue] on the zero Value is the panic of [v.Type()], which is
    what the nil cases of [Elem] stand for. *)
Lemma encodeValue_Zero (e : Encoder) (fl : reflect.flag) :
  encodeValue e fl Zero = Panic zeroValueType.
Proof. reflexivity. Qed.

(** Past the first two rules. *)
Lemma encodeValue_dispatch (e : Encoder) (fl : reflect.flag) (v : data)
    (t : reflect.rtype) :
  TypeOf v = Ok t ->
  dispatches e fl v ->
  encodeValue e fl v =
  match v with
  | VPtr _ _ (Some x) => encodeValue e (flagElemPtr fl) x
  | VInterface _ (Some x) => encodeValue e (flagElemInterface fl) x
  | VPtr _ _ None | VInterface _ None => Panic zeroValueType
  | VStruct _ (ToTime t') _ _ => IString <$> encodeTime fl t'
  | VStruct _ (ToURL u) _ _ => IString <$> encodeURL fl u
  | VStruct _ NoConv fs _ => encodeStruct e fl fs
  | VSlice _ ek elems => encodeSlice e fl ek elems
  | VArray _ elems => encodeArray e fl elems
  | VMap _ entries => encodeMap e fl entries
  | Zero | VUint _ reflect.KUintptr _ | VUnsafePointer _ | VChan _
  | VFunc _ => Panic (unsupportedKind t)
  | _ => IString <$> encodeBasic t v
  end.
Proof.
  intros Ht [Hm He]. rewrite encodeValue_unfold.
  unfold customText in Hm. rewrite Ht in Hm |- *. simpl in Hm |- *.
  rewrite Hm. simpl. rewrite He. reflexivity.
Qed.


(** *** A panic below is a panic above *)

Lemma encodeStructWith_panic (enc : reflect.flag -> data -> result iface)
    (o : Options) (fl : reflect.flag) (f : reflect.StructField) (fv : data)
    (r : string) (fs : list (reflect.StructField * data)) (n : node) :
  (f, fv) ∈ fs ->
  (fieldInfo o f).1 ≠ "-" ->
  ((fieldInfo o f).2 = false \/ isEmptyValue (flagField fl f) fv = Ok false) ->
  enc (flagField fl f) fv = Panic r ->
  exists r', encodeStructWith enc o fl fs n = Panic r'.
Proof.
  intros Hin Hkey Hoe Hpanic. revert n.
  induction fs as [| [g gv] rest IH]; intros n; [by apply elem_of_nil in Hin |].
  apply elem_of_cons in Hin as [Heq | Hin].
  - injection Heq as <- <-. simpl.
    destruct (fieldInfo o f) as [k oe] eqn:Hfi. simpl in Hkey, Hoe.
    rewrite decide_False by done.
    assert ((if oe then isEmptyValue (flagField fl f) fv else Ok false)
            = Ok false) as ->.
    { destruct Hoe as [-> | Hemp]; [done |]. by destruct oe. }
    simpl. rewrite Hpanic. by eexists.
  - simpl. destruct (fieldInfo o g) as [k oe].
    case_decide; [by apply IH |].
    destruct (if oe then isEmptyValue (flagField fl g) gv else Ok false)
      as [[] |]; simpl; [by apply IH | | by eexists].
    destruct (enc (flagField fl g) gv); simpl; [by apply IH | by eexists].
Qed.

Lemma encodeElemsWith_panic (enc : reflect.flag -> data -> result iface)
    (fl : reflect.flag) (x : data) (r : string) (elems : list data) (i : Z)
    (n : node) :
  x ∈ elems ->
  enc fl x = Panic r ->
  exists r', encodeElemsWith enc fl elems i n = Panic r'.
Proof.
  intros Hin Hpanic. revert i n.
  induction elems as [| y rest IH]; intros i n; [by apply elem_of_nil in Hin |].
  apply elem_of_cons in Hin as [<- | Hin]; simpl.
  - rewrite Hpanic. by eexists.
  - destruct (enc fl y); simpl; [by apply IH | by eexists].
Qed.

Lemma encodeMapWith_panic (enc : reflect.flag -> data -> result iface)
    (fl : reflect.flag) (i x : data) (r : string)
    (entries : list (data * data)) (n : node) :
  (i, x) ∈ entries ->
  enc (flagMap fl) i = Panic r \/ enc (flagMap fl) x = Panic r ->
  exists r', encodeMapWith enc fl entries n = Panic r'.
Proof.
  intros Hin Hpanic. revert n.
  induction entries as [| [j y] rest IH]; intros n;
    [by apply elem_of_nil in Hin |].
  apply elem_of_cons in Hin as [Heq | Hin]; simpl.
  - injection Heq as <- <-.
    destruct Hpanic as [Hp | Hp].
    + rewrite Hp. by eexists.
    + destruct (enc (flagMap fl) i); simpl; [| by eexists].
      destruct (getString a); simpl; [| by eexists].
      rewrite Hp. by eexists.
  - destruct (enc (flagMap fl) j); simpl; [| by eexists].
    destruct (getString a); simpl; [| by eexists].
    destruct (enc (flagMap fl) y); simpl; [by apply IH | by eexists].
Qed.

Lemma dispatches_TypeOf (e : Encoder) (fl : reflect.flag) (v : data) :
  dispatches e fl v -> exists t, TypeOf v = Ok t.
Proof.
  intros [Hm _]. unfold customText in Hm.
  destruct (TypeOf v) as [t |]; [by exists t | discriminate].
Qed.

Lemma visits_panic (e : Encoder) (fl fl' : reflect.flag) (v u : data)
    (r : string) :
  visits e fl v fl' u ->
  encodeValue e fl' u = Panic r ->
  exists r', encodeValue e fl v = Panic r'.
Proof.
  intros Hvisits Hpanic.
  induction Hvisits as
    [ fl v
    | fl m b x fl' u Hd _ IH
    | fl m x fl' u Hd _ IH
    | fl m fs eqZero f fv fl' u Hd Hin Hkey Hoe _ IH
    | fl m ek elems x fl' u Hd Hek Hin _ IH
    | fl m elems x fl' u Hd Hin _ IH
    | fl m entries i x fl' u Hd Hin _ IH
    | fl m entries i x fl' u Hd Hin _ IH ];
    [ by exists r | destruct (dispatches_TypeOf _ _ _ Hd) as [t Ht];
                    rewrite (encodeValue_dispatch _ _ _ _ Ht Hd) .. ].
  - by apply IH.
  - by apply IH.
  - destruct (IH Hpanic) as [r' Hr'].
    by apply (encodeStructWith_panic _ _ _ f fv r').
  - destruct (IH Hpanic) as [r' Hr'].
    unfold encodeSlice. rewrite decide_False by done.
    by apply (encodeElemsWith_panic _ _ x r').
  - destruct (IH Hpanic) as [r' Hr'].
    by apply (encodeElemsWith_panic _ _ x r').
  - destruct (IH Hpanic) as [r' Hr'].
    apply (encodeMapWith_panic _ _ i x r'); [done | by left].
  - destruct (IH Hpanic) as [r' Hr'].
    apply (encodeMapWith_panic _ _ i x r'); [done | by right].
Qed.

(** A panic in the walk is an error of [encodeToNode], and [Encode] then
    returns it without having called its writer. *)
Lemma panic_is_error (e : Encoder) (v : data) (r : string) :
  encodeValue e reflect.flagValueOf v = Panic r ->
  encodeToNode e v = (∅, Some r) /\ Encode e v = (w e, Some r).
Proof.
  intros Hp. assert (encodeToNode e v = (∅, Some r)) as Hn.
  { unfold encodeToNode. by rewrite Hp. }
  split; [exact Hn |]. unfold Encode. by rewrite Hn.
Qed.

(** *** The first failure of the walk *)

Lemma encodeStructWith_prefix (enc : reflect.flag -> data -> result iface)
    (o : Options) (fl : reflect.flag)
    (pre : list (reflect.StructField * data)) (n : node) (y : iface) :
  encodeStructWith enc o fl pre n = Ok y ->
  exists n1,
    y = INode n1
    /\ forall rest,
        encodeStructWith enc o fl (pre ++ rest) n
        = encodeStructWith enc o fl rest n1.
Proof.
  revert n. induction pre as [| [g gv] pre IH]; intros n; simpl.
  - intros [= <-]. by exists n.
  - destruct (fieldInfo o g) as [k oe].
    case_decide; [apply IH |].
    destruct (if oe then isEmptyValue (flagField fl g) gv else Ok false)
      as [[] |]; simpl; [apply IH | | discriminate].
    destruct (enc (flagField fl g) gv); simpl; [apply IH | discriminate].
Qed.

Lemma encodeElemsWith_prefix (enc : reflect.flag -> data -> result iface)
    (fl : reflect.flag) (pre : list data) (i : Z) (n : node) (y : iface) :
  encodeElemsWith enc fl pre i n = Ok y ->
  exists n1,
    y = INode n1
    /\ forall rest,
        encodeElemsWith enc fl (pre ++ rest) i n
        = encodeElemsWith enc fl rest (i + Z.of_nat (List.length pre)) n1.
Proof.
  revert i n. induction pre as [| x pre IH]; intros i n; simpl.
  - intros [= <-]. exists n. split; [done |]. intros rest.
    by rewrite Z.add_0_r.
  - destruct (enc fl x); simpl; [| discriminate].
    intros Hy. destruct (IH _ _ Hy) as (n1 & -> & Hrest).
    exists n1. split; [done |]. intros rest. rewrite Hrest.
    f_equal. lia.
Qed.

Lemma encodeMapWith_prefix (enc : reflect.flag -> data -> result iface)
    (fl : reflect.flag) (pre : list (data * data)) (n : node) (y : iface) :
  encodeMapWith enc fl pre n = Ok y ->
  exists n1,
    y = INode n1
    /\ forall rest,
        encodeMapWith enc fl (pre ++ rest) n = encodeMapWith enc fl rest n1.
Proof.
  revert n. induction pre as [| [j x] pre IH]; intros n; simpl.
  - intros [= <-]. by exists n.
  - destruct (enc (flagMap fl) j); simpl; [| discriminate].
    destruct (getString a); simpl; [| discriminate].
    destruct (enc (flagMap fl) x); simpl; [apply IH | discriminate].
Qed.

(** The panic of the first failure is the panic of the whole walk. *)
Lemma visitsFirst_panic (e : Encoder) (fl fl' : reflect.flag) (v u : data)
    (r : string) :
  visitsFirst e fl v fl' u ->
  encodeValue e fl' u = Panic r ->
  encodeValue e fl v = Panic r.
Proof.
  intros Hvisits Hpanic.
  induction Hvisits as
    [ fl v
    | fl m b x fl' u Hd _ IH
    | fl m x fl' u Hd _ IH
    | fl m pre f fv post eqZero fl' u y Hd Hpre Hkey Hoe _ IH
    | fl m ek pre x post fl' u y Hd Hek Hpre _ IH
    | fl m pre x post fl' u y Hd Hpre _ IH
    | fl m pre i x post fl' u y Hd Hpre _ IH
    | fl m pre i x post fl' u y k Hd Hpre Hk _ IH ];
    [ done | destruct (dispatches_TypeOf _ _ _ Hd) as [t Ht];
             rewrite (encodeValue_dispatch _ _ _ _ Ht Hd) .. ].
  - by apply IH.
  - by apply IH.
  - unfold encodeStruct in *.
    destruct (encodeStructWith_prefix _ _ _ _ _ _ Hpre) as (n1 & _ & ->).
    simpl. destruct (fieldInfo e f) as [key oe]. simpl in Hkey, Hoe.
    rewrite decide_False by done.
    assert ((if oe then isEmptyValue (flagField fl f) fv else Ok false)
            = Ok false) as ->.
    { destruct Hoe as [-> | Hemp]; [done |]. by destruct oe. }
    simpl. by rewrite (IH Hpanic).
  - unfold encodeSlice in *. rewrite decide_False in Hpre |- * by done.
    destruct (encodeElemsWith_prefix _ _ _ _ _ _ Hpre) as (n1 & _ & ->).
    simpl. by rewrite (IH Hpanic).
  - unfold encodeArray in *.
    destruct (encodeElemsWith_prefix _ _ _ _ _ _ Hpre) as (n1 & _ & ->).
    simpl. by rewrite (IH Hpanic).
  - unfold encodeMap in *.
    destruct (encodeMapWith_prefix _ _ _ _ _ Hpre) as (n1 & _ & ->).
    simpl. by rewrite (IH Hpanic).
  - unfold encodeMap in *.
    destruct (encodeMapWith_prefix _ _ _ _ _ Hpre) as (n1 & _ & ->).
    destruct Hk as (ki & Hki & Hks).
    simpl. rewrite Hki. simpl. rewrite Hks. simpl. by rewrite (IH Hpanic).
Qed.

(** *** Unsupported kinds *)

(** C2, as amended.  When the walk of an input [v] calls [encodeValue] on
    a subvalue [u] of kind func, chan, uintptr or unsafe pointer, and [u]
    has no custom text and is not elided as a zero value, then
    [encodeValue] panics at [u] with the message made of the name and the
    kind of its type; the panic is caught: the encoding of [v] fails with
    an error, and [Encode] returns that error with its writer untouched.
    When everything the walk encodes before it reaches [u] succeeds, so
    that [u] is the first failure, the error is that message, however
    deep [u] lies. *)
Theorem unsupported_kind_fails (e : Encoder) (v u : data) (fl' : reflect.flag) :
  visits e reflect.flagValueOf v fl' u ->
  unsupported u = true ->
  dispatches e fl' u ->
  encodeValue e fl' u
  = Panic (reflect.typeName (metaOf u) ++ " has unsupported kind "
           ++ reflect.KindString (KindOf u))
  /\ (exists r, encodeToNode e v = (∅, Some r) /\ Encode e v = (w e, Some r))
  /\ (visitsFirst e reflect.flagValueOf v fl' u ->
      encodeToNode e v
      = (∅, Some (reflect.typeName (metaOf u) ++ " has unsupported kind "
                  ++ reflect.KindString (KindOf u)))
      /\ Encode e v
         = (w e, Some (reflect.typeName (metaOf u) ++ " has unsupported kind "
                       ++ reflect.KindString (KindOf u)))).
Proof.
  intros Hvisits Hkind Hd.
  assert (encodeValue e fl' u
          = Panic (reflect.typeName (metaOf u) ++ " has unsupported kind "
                   ++ reflect.KindString (KindOf u))) as Hu.
  { destruct (dispatches_TypeOf _ _ _ Hd) as [t Ht].
    rewrite (encodeValue_dispatch _ _ _ _ Ht Hd).
    destruct u as [| | | ? [] ? | | | | | | | | | | | |]; try discriminate;
      simpl in Ht; injection Ht as <-; reflexivity. }
  split; [exact Hu |]. split.
  - destruct (visits_panic _ _ _ _ _ _ Hvisits Hu) as [r Hr].
    exists r. by apply panic_is_error.
  - intros Hfirst. apply panic_is_error.
    by apply (visitsFirst_panic _ _ _ _ _ _ Hfirst).
Qed.

(** *** Custom text *)

Lemma marshalValue_found (t : reflect.rtype) (fl : reflect.flag) (v : data)
    (r : string + string) :
  skipTextMarshalling t = false ->
  reflect.flagRO fl = false ->
  (reflect.valueMarshal (metaOf v) = Some r
   \/ (reflect.valueMarshal (metaOf v) = None /\ reflect.flagAddr fl = true
       /\ reflect.addrMarshal (metaOf v) = Some r)) ->
  marshalValue (valueOf t fl v)
  = match r with
    | inl bs => Ok (bs, true)
    | inr err => Panic err
    end.
Proof.
  intros Hskip Hro Hfound. unfold valueOf. simpl.
  rewrite Hskip. unfold Interface. rewrite Hro. simpl.
  destruct Hfound as [-> | (-> & -> & Haddr)]; [by destruct r |].
  unfold AddrOf. simpl.
  assert (skipTextMarshalling (PtrTo t) = false) as ->.
  { unfold skipTextMarshalling in *. simpl.
    by apply orb_false_iff in Hskip as [-> _]. }
  unfold Interface, reflect.flagRO in *. simpl. rewrite Hro. simpl.
  rewrite Haddr. by destruct r.
Qed.

(** C7.  A value whose type is not exempted by [skipTextMarshalling]
    (it converts neither to [time.Time] nor to [*time.Time]), on which
    [Interface] may be called, and which has a [MarshalText], on itself
    or, when addressable, on a pointer to it: [encodeValue] returns the
    marshaled text, whatever [Zeros] and whatever the value (a zero value
    included), and panics with the error when [MarshalText] fails; the
    encoding of any input whose walk reaches such a failing value fails
    with an error, and [Encode] returns it with its writer untouched. *)
Theorem custom_text_first (e : Encoder) (fl : reflect.flag) (v : data)
    (t : reflect.rtype) (r : string + string) :
  TypeOf v = Ok t ->
  skipTextMarshalling t = false ->
  reflect.flagRO fl = false ->
  (reflect.valueMarshal (metaOf v) = Some r
   \/ (reflect.valueMarshal (metaOf v) = None /\ reflect.flagAddr fl = true
       /\ reflect.addrMarshal (metaOf v) = Some r)) ->
  encodeValue e fl v
  = match r with
    | inl bs => Ok (IString bs)
    | inr err => Panic err
    end
  /\ forall v0 err,
      r = inr err ->
      visits e reflect.flagValueOf v0 fl v ->
      (exists r', encodeToNode e v0 = (∅, Some r')
                  /\ Encode e v0 = (w e, Some r'))
      /\ (fl = reflect.flagValueOf -> v0 = v ->
          encodeToNode e v0 = (∅, Some err)).
Proof.
  intros Ht Hskip Hro Hfound.
  assert (encodeValue e fl v
          = match r with
            | inl bs => Ok (IString bs)
            | inr err => Panic err
            end) as Hv.
  { pose proof (marshalValue_found _ _ _ r Hskip Hro Hfound) as Hm.
    rewrite encodeValue_unfold, Ht. simpl in Hm |- *.
    rewrite Hm. by destruct r. }
  split; [exact Hv |].
  intros v0 err -> Hvisits. split.
  - destruct (visits_panic _ _ _ _ _ _ Hvisits Hv) as [r' Hr'].
    exists r'. by apply panic_is_error.
  - intros -> ->. by apply panic_is_error.
Qed.

End EncodeValue.

Lemma unsupported_kind_fails_witness :
  @encodeToNode scalarNodeFile (NewEncoder discard)
    (VStruct (plain "main.T") NoConv
       [(exported "A" "", VInt (plain "int") reflect.KInt 1);
        (exported "F" "", VFunc (plain "func()"))] false)
  = (∅, Some "func() has unsupported kind func").
Proof.
  destruct (@unsupported_kind_fails scalarNodeFile (NewEncoder discard)
              (VStruct (plain "main.T") NoConv
                 [(exported "A" "", VInt (plain "int") reflect.KInt 1);
                  (exported "F" "", VFunc (plain "func()"))] false)
              (VFunc (plain "func()"))
              (flagField reflect.flagValueOf (exported "F" "")))
    as (_ & _ & Hfirst).
  - apply (visits_field (NewEncoder discard) reflect.flagValueOf
             (plain "main.T") _ false (exported "F" "")
             (VFunc (plain "func()"))).
    + split; reflexivity.
    + right. left.
    + discriminate.
    + left; reflexivity.
    + apply visits_here.
  - reflexivity.
  - split; reflexivity.
  - apply Hfirst.
    apply (@first_field scalarNodeFile (NewEncoder discard)
             reflect.flagValueOf (plain "main.T")
             [(exported "A" "", VInt (plain "int") reflect.KInt 1)]
             (exported "F" "") (VFunc (plain "func()")) [] false _ _
             (INode (<["A" := IString "1"]> ∅))).
    + split; reflexivity.
    + by vm_compute.
    + discriminate.
    + left; reflexivity.
    + apply first_here.
Defined.

(** C2, counterexample.  Three inputs that contain a subvalue of an
    unsupported kind.  A [uintptr] at zero, with [Zeros] off, is elided
    before its kind is looked at: the encoding succeeds, with the empty
    string, and is written out.  A func in an unexported field is never
    visited: the encoding succeeds.  A func in a field that follows a
    field whose [MarshalText] fails: the encoding fails with the error of
    [MarshalText], which names neither the func type nor its kind. *)
Lemma uintptr_zero_is_encoded :
  unsupported (VUint (plain "uintptr") reflect.KUintptr 0) = true
  /\ @encodeValue scalarNodeFile (NewEncoder discard) reflect.flagValueOf
       (VUint (plain "uintptr") reflect.KUintptr 0)
     = Ok (IString "")
  /\ snd (@encodeToNode scalarNodeFile (NewEncoder discard)
            (VUint (plain "uintptr") reflect.KUintptr 0)) = None
  /\ snd (@Encode scalarNodeFile (NewEncoder discard)
            (VUint (plain "uintptr") reflect.KUintptr 0)) = None
  /\ snd (@encodeToNode scalarNodeFile (NewEncoder discard)
            (VStruct (plain "main.T") NoConv
               [(reflect.mkField "f" "main" [] false, VFunc (plain "func()"));
                (exported "A" "", VInt (plain "int") reflect.KInt 1)] false))
     = None
  /\ snd (@encodeToNode scalarNodeFile (NewEncoder discard)
            (VStruct (plain "main.T") NoConv
               [(exported "A" "",
                 VInt (reflect.mkMeta "main.ID" (Some (inr "boom")) None)
                      reflect.KInt 1);
                (exported "F" "", VFunc (plain "func()"))] false))
     = Some "boom".
Proof. repeat split; vm_compute; reflexivity. Qed.

Lemma custom_text_first_witness :
  @encodeValue scalarNodeFile (NewEncoder discard) reflect.flagValueOf
    (VInt (reflect.mkMeta "log.Level" (Some (inl "info")) None)
          reflect.KInt8 0)
  = Ok (IString "info").
Proof.
  destruct (@custom_text_first scalarNodeFile (NewEncoder discard)
              reflect.flagValueOf
              (VInt (reflect.mkMeta "log.Level" (Some (inl "info")) None)
                    reflect.KInt8 0)
              (reflect.mkType "log.Level" reflect.Int8 (fun _ => false)
                              reflect.Invalid)
              (inl "info")) as [Hv _].
  - reflexivity.
  - reflexivity.
  - reflexivity.
  - left; reflexivity.
  - exact Hv.
Defined.

(** ** Timestamps, byte slices and struct fields *)

Section EncodeKinds.
Context `{NodeFile}.

(** A struct that converts to [time.Time] is exempted from
    [MarshalText]. *)
Lemma customText_time (fl : reflect.flag) (m : reflect.meta) (t : time.Time)
    (fs : list (reflect.StructField * data)) (eqZero : bool) :
  customText fl (VStruct m (ToTime t) fs eqZero) = Ok ("", false).
Proof. reflexivity. Qed.

Lemma date_test (t : time.Time) :
  bool_decide (time.Year t = 0)
  && (bool_decide (time.Month t = 0) || bool_decide (time.Month t = 1))
  && (bool_decide (time.Day t = 0) || bool_decide (time.Day t = 1)) = true
  <-> time.Year t = 0 /\ (time.Month t = 0 \/ time.Month t = 1)
      /\ (time.Day t = 0 \/ time.Day t = 1).
Proof.
  rewrite !andb_true_iff, !orb_true_iff, !bool_decide_eq_true. tauto.
Qed.

Lemma clock_test (t : time.Time) :
  bool_decide (time.Hour t = 0) && bool_decide (time.Minute t = 0)
  && bool_decide (time.Second t = 0) && bool_decide (time.Nanosecond t = 0)
  = true
  <-> time.Hour t = 0 /\ time.Minute t = 0 /\ time.Second t = 0
      /\ time.Nanosecond t = 0.
Proof. rewrite !andb_true_iff, !bool_decide_eq_true. tauto. Qed.

(** C6.  A timestamp (a struct whose type converts to [time.Time]) that
    is not elided as a zero value, and on which [Interface] may be
    called, is encoded as the scalar [encodeTime] returns, in one of
    three layouts: the time-only layout when the date is unset (year 0,
    month 0 or January, day 0 or 1); else the date-only layout when hour,
    minute, second and nanosecond are all zero; else the full
    layout. *)
Theorem encodeTime_precedence (e : Encoder) (fl : reflect.flag)
    (m : reflect.meta) (t : time.Time)
    (fs : list (reflect.StructField * data)) (eqZero : bool) :
  reflect.flagRO fl = false ->
  Zeros e = true \/ time.IsZero t = false ->
  let dateUnset :=
    time.Year t = 0 /\ (time.Month t = 0 \/ time.Month t = 1)
    /\ (time.Day t = 0 \/ time.Day t = 1) in
  let clockZero :=
    time.Hour t = 0 /\ time.Minute t = 0 /\ time.Second t = 0
    /\ time.Nanosecond t = 0 in
  encodeValue e fl (VStruct m (ToTime t) fs eqZero)
  = IString <$> encodeTime fl t
  /\ (dateUnset ->
      encodeTime fl t = Ok (time.Format t "15:04:05.999999999Z07:00"))
  /\ (~ dateUnset -> clockZero ->
      encodeTime fl t = Ok (time.Format t "2006-01-02"))
  /\ (~ dateUnset -> ~ clockZero ->
      encodeTime fl t
      = Ok (time.Format t "2006-01-02T15:04:05.999999999Z07:00")).
Proof.
  intros Hro Hkeep dateUnset clockZero.
  repeat apply conj.
  - rewrite encodeValue_unfold. simpl.
    unfold skipTextMarshalling. simpl.
    unfold Interface. rewrite Hro. simpl.
    destruct Hkeep as [-> | ->]; [reflexivity |].
    by destruct (Zeros e).
  - intros Hdate. apply date_test in Hdate.
    unfold encodeTime, Interface. rewrite Hro. simpl. by rewrite Hdate.
  - intros Hdate Hclock. apply clock_test in Hclock.
    apply (not_iff_compat (date_test t)), not_true_is_false in Hdate.
    unfold encodeTime, Interface. rewrite Hro. simpl.
    by rewrite Hdate, Hclock.
  - intros Hdate Hclock.
    apply (not_iff_compat (date_test t)), not_true_is_false in Hdate.
    apply (not_iff_compat (clock_test t)), not_true_is_false in Hclock.
    unfold encodeTime, Interface. rewrite Hro. simpl.
    by rewrite Hdate, Hclock.
Qed.

(** *** Byte slices *)

Lemma encodeElemsWith_node (enc : reflect.flag -> data -> result iface)
    (fl : reflect.flag) (elems : list data) (i : Z) (n : node) (x : iface) :
  encodeElemsWith enc fl elems i n = Ok x -> exists n', x = INode n'.
Proof.
  revert i n. induction elems as [| y rest IH]; intros i n; simpl.
  - intros [= <-]. by eexists.
  - destruct (enc fl y); simpl; [apply IH | discriminate].
Qed.

(** C5, as amended.  A byte slice (a slice whose element type has kind
    [uint8]) for which no custom text is found is encoded as one scalar,
    the bytes read as a string, whatever [Zeros]; a byte array is not
    covered: once past the first two rules its encoding, when it
    succeeds, is a composite. *)
Theorem byte_slice_is_scalar (e : Encoder) (fl : reflect.flag)
    (m : reflect.meta) (elems : list data) :
  customText fl (VSlice m reflect.Uint8 elems) = Ok ("", false) ->
  encodeValue e fl (VSlice m reflect.Uint8 elems) = Ok (IString (Bytes elems))
  /\ forall m' x,
      dispatches e fl (VArray m' elems) ->
      encodeValue e fl (VArray m' elems) = Ok x ->
      exists n, x = INode n.
Proof.
  intros Hm. split.
  - rewrite encodeValue_unfold. unfold customText in Hm.
    simpl in Hm |- *. rewrite Hm. simpl.
    destruct (Zeros e); simpl.
    + unfold encodeSlice. by rewrite decide_True.
    + case_bool_decide as Hlen; simpl.
      * by destruct elems.
      * unfold encodeSlice. by rewrite decide_True.
  - intros m' x Hd.
    rewrite (encodeValue_dispatch e fl (VArray m' elems) _ eq_refl Hd).
    apply encodeElemsWith_node.
Qed.

(** *** Struct fields *)

Lemma encodeStructWith_app (enc : reflect.flag -> data -> result iface)
    (o : Options) (fl : reflect.flag)
    (pre rest : list (reflect.StructField * data)) (n : node) (x : iface) :
  encodeStructWith enc o fl (pre ++ rest) n = Ok x ->
  exists n1, encodeStructWith enc o fl pre n = Ok (INode n1)
             /\ encodeStructWith enc o fl rest n1 = Ok x.
Proof.
  revert n. induction pre as [| [g gv] pre IH]; intros n; simpl.
  - intros Hx. by exists n.
  - destruct (fieldInfo o g) as [k oe].
    case_decide; [apply IH |].
    destruct (if oe then isEmptyValue (flagField fl g) gv else Ok false)
      as [[] |]; simpl; [apply IH | | discriminate].
    destruct (enc (flagField fl g) gv); simpl; [apply IH | discriminate].
Qed.

Lemma encodeStructWith_cons (enc : reflect.flag -> data -> result iface)
    (o : Options) (fl : reflect.flag) (f : reflect.StructField) (fv : data)
    (rest : list (reflect.StructField * data)) (n : node) :
  encodeStructWith enc o fl ((f, fv) :: rest) n
  = let '(k, oe) := fieldInfo o f in
    if decide (k = "-") then encodeStructWith enc o fl rest n
    else
      empty ← (if oe then isEmptyValue (flagField fl f) fv else Ok false);
      if empty : bool then encodeStructWith enc o fl rest (delete k n)
      else x ← enc (flagField fl f) fv;
           encodeStructWith enc o fl rest (<[k := x]> n).
Proof. reflexivity. Qed.

(** Fields with other keys leave a key as it is. *)
Lemma encodeStructWith_other_keys (enc : reflect.flag -> data -> result iface)
    (o : Options) (fl : reflect.flag) (key : string)
    (fs : list (reflect.StructField * data)) (n : node) (x : iface) :
  Forall (fun p => (fieldInfo o p.1).1 ≠ key) fs ->
  encodeStructWith enc o fl fs n = Ok x ->
  exists n', x = INode n' /\ n' !! key = n !! key.
Proof.
  intros Hkeys. revert n.
  induction Hkeys as [| [g gv] rest Hg _ IH]; intros n; simpl.
  - intros [= <-]. by exists n.
  - simpl in Hg. destruct (fieldInfo o g) as [k oe]. simpl in Hg.
    case_decide; [apply IH |].
    destruct (if oe then isEmptyValue (flagField fl g) gv else Ok false)
      as [[] |]; simpl; [| | discriminate].
    + intros Hx. destruct (IH _ Hx) as (n' & -> & Hn').
      exists n'. split; [done |]. by rewrite Hn', lookup_delete_ne.
    + destruct (enc (flagField fl g) gv); simpl; [| discriminate].
      intros Hx. destruct (IH _ Hx) as (n' & -> & Hn').
      exists n'. split; [done |]. by rewrite Hn', lookup_insert_ne.
Qed.

(** Without [MarshalText] on the value or on a pointer to it,
    [marshalValue] finds no text. *)
Lemma marshalValue_none (t : reflect.rtype) (fl : reflect.flag) (v : data)
    (s : string) (ok : bool) :
  reflect.valueMarshal (metaOf v) = None ->
  reflect.addrMarshal (metaOf v) = None ->
  marshalValue (valueOf t fl v) = Ok (s, ok) ->
  s = "" /\ ok = false.
Proof.
  intros Hv Ha. unfold valueOf, AddrOf. rewrite Hv, Ha.
  destruct (reflect.flagAddr fl); cbn [marshalValue];
    unfold Interface, mbind, result_bind;
    repeat case_match; intros Heq; by simplify_eq.
Qed.

(** What a composite result tells about the walk. *)
Lemma encodeValue_node (e : Encoder) (fl : reflect.flag) (v : data)
    (n : node) :
  encodeValue e fl v = Ok (INode n) ->
  exists t,
    TypeOf v = Ok t
    /\ match v with
       | VPtr _ _ (Some x) => encodeValue e (flagElemPtr fl) x
       | VInterface _ (Some x) => encodeValue e (flagElemInterface fl) x
       | VPtr _ _ None | VInterface _ None => Panic zeroValueType
       | VStruct _ (ToTime t') _ _ => IString <$> encodeTime fl t'
       | VStruct _ (ToURL u) _ _ => IString <$> encodeURL fl u
       | VStruct _ NoConv fs _ => encodeStruct e fl fs
       | VSlice _ ek elems => encodeSlice e fl ek elems
       | VArray _ elems => encodeArray e fl elems
       | VMap _ entries => encodeMap e fl entries
       | Zero | VUint _ reflect.KUintptr _ | VUnsafePointer _ | VChan _
       | VFunc _ => Panic (unsupportedKind t)
       | _ => IString <$> encodeBasic t v
       end = Ok (INode n).
Proof.
  rewrite encodeValue_unfold. unfold mbind, result_bind.
  destruct (TypeOf v) as [t |]; [| discriminate].
  destruct (marshalValue (valueOf t fl v)) as [[s []] |]; try discriminate.
  destruct (if Zeros e then Ok false else isEmptyValue fl v) as [[] |];
    try discriminate.
  intros Hn. by exists t.
Qed.

(** A zero integer without [MarshalText], when its encoding succeeds. *)
Lemma encodeValue_zero_integer (e : Encoder) (fl : reflect.flag)
    (m : reflect.meta) (k : reflect.intKind + reflect.uintKind) (x : iface) :
  reflect.valueMarshal m = None ->
  reflect.addrMarshal m = None ->
  encodeValue e fl (integerOf m k 0) = Ok x ->
  x = IString (if Zeros e then "0" else "").
Proof.
  intros Hv Ha. rewrite encodeValue_unfold.
  assert (Hmeta : metaOf (integerOf m k 0) = m) by (by destruct k).
  destruct (TypeOf (integerOf m k 0)) as [t |] eqn:Ht;
    [| by destruct k].
  unfold mbind at 1, result_bind at 1.
  destruct (marshalValue _) as [[s ok] |] eqn:Hm; [| discriminate].
  apply (marshalValue_none _ _ (integerOf m k 0)) in Hm as [-> ->];
    [| by rewrite Hmeta ..].
  unfold mbind, result_bind.
  destruct k as [k | k]; simpl.
  - destruct (Zeros e); simpl; by intros [= <-].
  - destruct (Zeros e); simpl; [| by intros [= <-]].
    destruct k; simpl; by intros [= <-].
Qed.

(** C1, as amended.  In a struct that is encoded as a composite [n], take
    an integer field, signed or unsigned, equal to 0, whose type has no
    [MarshalText], whose key is not the omitted marker ["-"] and is not
    the key of a later field.  Without [omitempty], [n] holds the key
    with the empty string when [Zeros] is off and with ["0"] when it is
    on; with [omitempty], [n] does not hold the key, whatever [Zeros]. *)
Theorem zero_integer_field (e : Encoder) (fl : reflect.flag)
    (m mi : reflect.meta) (c : conversion)
    (pre post : list (reflect.StructField * data)) (f : reflect.StructField)
    (k : reflect.intKind + reflect.uintKind) (eqZero : bool) (n : node)
    (key : string) (oe : bool) :
  encodeValue e fl (VStruct m c (pre ++ (f, integerOf mi k 0) :: post) eqZero)
  = Ok (INode n) ->
  fieldInfo e f = (key, oe) ->
  key ≠ "-" ->
  reflect.valueMarshal mi = None ->
  reflect.addrMarshal mi = None ->
  Forall (fun p => (fieldInfo e p.1).1 ≠ key) post ->
  n !! key
  = if oe then None else Some (IString (if Zeros e then "0" else "")).
Proof.
  intros Henc Hfi Hkey Hv Ha Hpost.
  assert (encodeStruct e fl (pre ++ (f, integerOf mi k 0) :: post)
          = Ok (INode n)) as Hstruct.
  { apply encodeValue_node in Henc as (t & _ & Henc).
    destruct c as [| t' | u]; [exact Henc | |].
    - by destruct (encodeTime fl t').
    - by destruct (encodeURL fl u). }
  unfold encodeStruct in Hstruct.
  apply encodeStructWith_app in Hstruct as (n1 & _ & Hrest).
  rewrite encodeStructWith_cons, Hfi in Hrest.
  rewrite decide_False in Hrest by done.
  destruct oe.
  - assert (isEmptyValue (flagField fl f) (integerOf mi k 0) = Ok true)
      as Hempty by (by destruct k).
    rewrite Hempty in Hrest.
    unfold mbind, result_bind in Hrest.
    destruct (encodeStructWith_other_keys _ _ _ key _ _ _ Hpost Hrest)
      as (n' & [= <-] & ->).
    apply lookup_delete_eq.
  - unfold mbind, result_bind in Hrest.
    destruct (encodeValue e (flagField fl f) (integerOf mi k 0))
      as [x |] eqn:Hx; [| discriminate].
    apply (encodeValue_zero_integer _ _ _ _ _ Hv Ha) in Hx as ->.
    destruct (encodeStructWith_other_keys _ _ _ key _ _ _ Hpost Hrest)
      as (n' & [= <-] & ->).
    apply lookup_insert_eq.
Qed.

End EncodeKinds.

Lemma encodeTime_precedence_witness :
  @encodeValue scalarNodeFile (NewEncoder discard) reflect.flagValueOf
    (VStruct (plain "time.Time")
             (ToTime (time.mkTime 2020 5 17 0 0 0 0 false
                                  (fun layout => "<" ++ layout ++ ">")))
             [] false)
  = Ok (IString "<2006-01-02>").
Proof.
  destruct (@encodeTime_precedence scalarNodeFile (NewEncoder discard)
              reflect.flagValueOf (plain "time.Time")
              (time.mkTime 2020 5 17 0 0 0 0 false
                           (fun layout => "<" ++ layout ++ ">"))
              [] false) as (Hv & _ & Hdate & _).
  - reflexivity.
  - right; reflexivity.
  - rewrite Hv, Hdate.
    + reflexivity.
    + simpl. intros [Hy _]. discriminate Hy.
    + simpl. repeat split; reflexivity.
Defined.

Lemma byte_slice_is_scalar_witness :
  @encodeValue scalarNodeFile (NewEncoder discard) reflect.flagValueOf
    (VSlice (plain "[]uint8") reflect.Uint8
            [VUint (plain "uint8") reflect.KUint8 104;
             VUint (plain "uint8") reflect.KUint8 105])
  = Ok (IString "hi").
Proof.
  destruct (@byte_slice_is_scalar scalarNodeFile (NewEncoder discard)
              reflect.flagValueOf (plain "[]uint8")
              [VUint (plain "uint8") reflect.KUint8 104;
               VUint (plain "uint8") reflect.KUint8 105]) as [Hv _].
  - reflexivity.
  - exact Hv.
Defined.

(** C5, counterexample.  The byte array [[2]byte{104, 105}] is a byte
    sequence, and it is encoded as the composite of its two indexed
    entries, not as the scalar ["hi"]. *)
Lemma byte_array_is_composite :
  @encodeValue scalarNodeFile (NewEncoder discard) reflect.flagValueOf
    (VArray (plain "[2]uint8")
            [VUint (plain "uint8") reflect.KUint8 104;
             VUint (plain "uint8") reflect.KUint8 105])
  = Ok (INode (<["1" := IString "105"]> (<["0" := IString "104"]> ∅)))
  /\ @encodeValue scalarNodeFile (NewEncoder discard) reflect.flagValueOf
       (VArray (plain "[2]uint8")
               [VUint (plain "uint8") reflect.KUint8 104;
                VUint (plain "uint8") reflect.KUint8 105])
     ≠ Ok (IString "hi").
Proof. split; [by vm_compute | by vm_compute]. Qed.

Lemma zero_integer_field_witness :
  (<["A" := IString ""]> ∅ : node) !! "A" = Some (IString "")
  /\ (<["A" := IString ""]> ∅ : node) !! "b" = None.
Proof.
  split.
  - apply (@zero_integer_field scalarNodeFile (NewEncoder discard)
             reflect.flagValueOf (plain "main.T") (plain "uint16") NoConv
             [] [(exported "B" "b,omitempty", VInt (plain "int") reflect.KInt 0)]
             (exported "A" "") (inr reflect.KUint16) false _ "A" false).
    + by vm_compute.
    + reflexivity.
    + discriminate.
    + reflexivity.
    + reflexivity.
    + repeat constructor. by vm_compute.
  - apply (@zero_integer_field scalarNodeFile (NewEncoder discard)
             reflect.flagValueOf (plain "main.T") (plain "int") NoConv
             [(exported "A" "", VUint (plain "uint16") reflect.KUint16 0)] []
             (exported "B" "b,omitempty") (inl reflect.KInt) false _ "b" true).
    + by vm_compute.
    + reflexivity.
    + discriminate.
    + reflexivity.
    + reflexivity.
    + constructor.
Defined.

(** C1, counterexample.  [Level] is an integer field equal to 0 whose
    type has a [MarshalText] (returning ["info"] at 0): the key holds
    ["info"], not the empty string with [Zeros] off, and not ["0"] with
    [Zeros] on. *)
Lemma zero_integer_with_custom_text :
  @encodeValue scalarNodeFile (NewEncoder discard) reflect.flagValueOf
    (VStruct (plain "main.Config") NoConv
       [(exported "Level" "",
         VInt (reflect.mkMeta "log.Level" (Some (inl "info")) None)
              reflect.KInt8 0)] false)
  = Ok (INode (<["Level" := IString "info"]> ∅))
  /\ @encodeValue scalarNodeFile
       (mkEncoder discard (setZeros true Default)) reflect.flagValueOf
       (VStruct (plain "main.Config") NoConv
          [(exported "Level" "",
            VInt (reflect.mkMeta "log.Level" (Some (inl "info")) None)
                 reflect.KInt8 0)] false)
     = Ok (INode (<["Level" := IString "info"]> ∅))
  /\ (<["Level" := IString "info"]> ∅ : node) !! "Level"
     ≠ Some (IString "")
  /\ (<["Level" := IString "info"]> ∅ : node) !! "Level"
     ≠ Some (IString "0").
Proof. repeat split; by vm_compute. Qed.

(** ** The omitted key *)

(** C4, the code at a failing input.  With the options
    [{Delimiter '.', Escape '\\', ImplicitKey "_", OmittedKey "x"}], which
    [Validate] accepts: a field tagged with the name ["x"] is kept under
    the key ["x"]; an unexported field is not dropped either, its
    encoding panics in [Interface] and the whole encoding fails;
    [findField], with the same options, does skip both fields. *)
Theorem omitted_key_is_hardcoded :
  Validate (mkOptions 0 false false false 46 92 "_" "x") = None
  /\ @encodeStruct scalarNodeFile
       (mkEncoder discard (mkOptions 0 false false false 46 92 "_" "x"))
       reflect.flagValueOf
       [(exported "A" "x", VInt (plain "int") reflect.KInt 5)]
     = Ok (INode (<["x" := IString "5"]> ∅))
  /\ @encodeToNode scalarNodeFile
       (mkEncoder discard (mkOptions 0 false false false 46 92 "_" "x"))
       (VStruct (plain "main.T") NoConv
          [(reflect.mkField "b" "main" [] false,
            VInt (plain "int") reflect.KInt 5)] false)
     = (∅, Some readOnlyInterface)
  /\ @findField asciiStrings
       (mkOptions 0 false false false 46 92 "_" "x")
       (VStruct (plain "main.T") NoConv
          [(exported "A" "x", VInt (plain "int") reflect.KInt 5);
           (reflect.mkField "b" "main" [] false,
            VInt (plain "int") reflect.KInt 5)] false) "x"
     = Ok None.
Proof. repeat split; by vm_compute. Qed.

(** ** findField *)

Section FindFieldOrder.
Context `{Strings}.
Variables (o : Options) (n : string).

Lemma namedFields_exact (lowerN : string)
    (pre post : list (reflect.StructField * data)) (f : reflect.StructField)
    (fv : data) (i cim : Z) :
  Forall (fun p => ~ exactMatch o n p) pre ->
  exactMatch o n (f, fv) ->
  namedFields o n lowerN (pre ++ (f, fv) :: post) i cim = inl fv.
Proof.
  intros Hpre [Hvis Hkey]. revert i cim.
  induction Hpre as [| [g gv] pre Hg _ IH]; intros i cim; simpl.
  - unfold visible in Hvis. simpl in Hvis, Hkey.
    rewrite decide_False by done. by rewrite decide_True.
  - case_decide as Hom; [apply IH |].
    case_decide as Hn; [by destruct Hg |].
    by destruct (Caseless o && _).
Qed.

(** Without an exact match the first loop runs to its end, and a prefix
    of the fields only changes the index it has kept. *)
Lemma namedFields_skip (lowerN : string)
    (pre rest : list (reflect.StructField * data)) (i cim : Z) :
  Forall (fun p => ~ exactMatch o n p) pre ->
  exists cim',
    namedFields o n lowerN (pre ++ rest) i cim
    = namedFields o n lowerN rest (i + Z.of_nat (List.length pre)) cim'.
Proof.
  intros Hpre. revert i cim.
  induction Hpre as [| [g gv] pre Hg _ IH]; intros i cim; simpl.
  - exists cim. by rewrite Z.add_0_r.
  - replace (i + Z.of_nat (S (List.length pre)))
      with (i + 1 + Z.of_nat (List.length pre)) by lia.
    case_decide as Hom; [apply IH |].
    case_decide as Hn; [by destruct Hg |].
    destruct (Caseless o && _); apply IH.
Qed.

Lemma namedFields_none (lowerN : string)
    (fs : list (reflect.StructField * data)) (i cim : Z) :
  Forall (fun p => ~ exactMatch o n p) fs ->
  Caseless o = false
  \/ (lowerN = ToLower n /\ Forall (fun p => ~ caselessMatch o n p) fs) ->
  namedFields o n lowerN fs i cim = inr cim.
Proof.
  intros Hfs Hcase. revert i cim.
  induction Hfs as [| [g gv] fs Hg _ IH]; intros i cim; simpl; [done |].
  assert (Caseless o = false
          \/ (lowerN = ToLower n
              /\ Forall (fun p => ~ caselessMatch o n p) fs)) as Hrest.
  { destruct Hcase as [Hc | [Hl Hall]]; [by left | right].
    split; [done | by inversion Hall]. }
  case_decide as Hom; [by apply IH |].
  case_decide as Hn; [by destruct Hg |].
  destruct Hcase as [-> | [-> Hall]]; simpl; [by apply IH |].
  destruct (Caseless o); simpl; [| by apply IH].
  case_bool_decide as Hlow; [| by apply IH].
  inversion Hall as [| ? ? Hnot _]; subst. by destruct Hnot.
Qed.

Lemma anonymousFields_first (rec : data -> option data)
    (pre post : list (reflect.StructField * data)) (f : reflect.StructField)
    (fv ev : data) :
  Forall (fun p => ~ (visible o p.1 /\ reflect.Anonymous p.1 = true
                      /\ is_Some (rec p.2))) pre ->
  visible o f -> reflect.Anonymous f = true -> rec fv = Some ev ->
  anonymousFields rec o (pre ++ (f, fv) :: post) = Some ev.
Proof.
  intros Hpre Hvis Hanon Hrec.
  induction Hpre as [| [g gv] pre Hg _ IH]; simpl.
  - unfold visible in Hvis. rewrite bool_decide_eq_false_2 by done.
    rewrite Hanon. simpl. by rewrite Hrec.
  - case_bool_decide as Hom; simpl; [exact IH |].
    destruct (reflect.Anonymous g) eqn:Hga; simpl; [| exact IH].
    destruct (rec gv) as [ev' |] eqn:Hgv; [| exact IH].
    destruct Hg. simpl. by rewrite Hgv.
Qed.

Lemma anonymousFields_none (rec : data -> option data)
    (fs : list (reflect.StructField * data)) :
  Forall (fun p => ~ (visible o p.1 /\ reflect.Anonymous p.1 = true
                      /\ is_Some (rec p.2))) fs ->
  anonymousFields rec o fs = None.
Proof.
  intros Hfs.
  induction Hfs as [| [g gv] fs Hg _ IH]; simpl; [done |].
  case_bool_decide as Hom; simpl; [exact IH |].
  destruct (reflect.Anonymous g) eqn:Hga; simpl; [| exact IH].
  destruct (rec gv) as [ev' |] eqn:Hgv; [| exact IH].
  destruct Hg. simpl. by rewrite Hgv.
Qed.

(** C3, as amended.  [findField] on a struct resolves the name [n] in
    this order: (1) the first visible field, in declaration order, whose
    key is [n]; (2) when there is none and [Caseless] is on, the LAST
    visible field, in declaration order, whose key equals [n] up to case;
    (3) when there is none either, the first visible embedded field, in
    declaration order, in whose value the search succeeds, with the
    result of that search; (4) otherwise nothing.  The search in an
    embedded value follows pointers and interfaces down to a struct and
    is [findField] on that struct, so it is depth-first.  By (1) a field
    of the struct itself wins over a field of an embedded struct. *)
Theorem findField_order (m : reflect.meta) (c : conversion)
    (fs : list (reflect.StructField * data)) (eqZero : bool) :
  (forall pre f fv post,
      fs = (pre ++ (f, fv) :: post)%list ->
      Forall (fun p => ~ exactMatch o n p) pre ->
      exactMatch o n (f, fv) ->
      findField o (VStruct m c fs eqZero) n = Ok (Some fv))
  /\ (forall pre f fv post,
      fs = (pre ++ (f, fv) :: post)%list ->
      Caseless o = true ->
      Forall (fun p => ~ exactMatch o n p) fs ->
      caselessMatch o n (f, fv) ->
      Forall (fun p => ~ caselessMatch o n p) post ->
      findField o (VStruct m c fs eqZero) n = Ok (Some fv))
  /\ (forall pre f fv post ev,
      fs = (pre ++ (f, fv) :: post)%list ->
      Forall (fun p => ~ exactMatch o n p) fs ->
      Caseless o = false \/ Forall (fun p => ~ caselessMatch o n p) fs ->
      Forall (fun p => ~ embeddedMatch o n p) pre ->
      visible o f -> reflect.Anonymous f = true ->
      findEmbedded o n fv = Some ev ->
      findField o (VStruct m c fs eqZero) n = Ok (Some ev))
  /\ (Forall (fun p => ~ exactMatch o n p) fs ->
      Caseless o = false \/ Forall (fun p => ~ caselessMatch o n p) fs ->
      Forall (fun p => ~ embeddedMatch o n p) fs ->
      findField o (VStruct m c fs eqZero) n = Ok None)
  /\ (forall m' b x,
      findEmbedded o n (VPtr m' b (Some x)) = findEmbedded o n x)
  /\ (forall m' x,
      findEmbedded o n (VInterface m' (Some x)) = findEmbedded o n x)
  /\ Ok (findEmbedded o n (VStruct m c fs eqZero))
     = findField o (VStruct m c fs eqZero) n.
Proof.
  assert (Hnone : forall fs',
    Forall (fun p => ~ exactMatch o n p) fs' ->
    Caseless o = false \/ Forall (fun p => ~ caselessMatch o n p) fs' ->
    namedFields o n (if Caseless o then ToLower n else "") fs' 0 (-1)
    = inr (-1)).
  { intros fs' Hex Hcase. apply namedFields_none; [done |].
    destruct Hcase as [Hc | Hall]; [by left |].
    destruct (Caseless o); [by right | by left]. }
  repeat apply conj.
  - intros pre f fv post -> Hpre Hm. simpl. unfold findFieldWith.
    by rewrite (namedFields_exact _ _ _ _ _ _ _ Hpre Hm).
  - intros pre f fv post -> Hcase Hex [Hvis Hlow] Hpost.
    simpl. unfold findFieldWith. rewrite Hcase.
    pose proof Hex as Hex'.
    apply Forall_app in Hex' as [Hpre Hrest].
    apply Forall_cons in Hrest as [Hf Hpostex].
    destruct (namedFields_skip (ToLower n) pre ((f, fv) :: post) 0 (-1) Hpre)
      as [cim' ->].
    simpl. unfold visible in Hvis. simpl in Hvis, Hlow.
    rewrite decide_False by done.
    rewrite decide_False by (intros Hn; by apply Hf).
    rewrite Hcase. rewrite bool_decide_eq_true_2 by done. simpl.
    rewrite namedFields_none; [| done | right; by split].
    rewrite decide_True by lia.
    rewrite Z.add_0_l, Nat2Z.id, list_lookup_middle by done. reflexivity.
  - intros pre f fv post ev -> Hex Hcase Hpre Hvis Hanon Hev.
    simpl. unfold findFieldWith. rewrite (Hnone _ Hex Hcase).
    rewrite decide_False by (intros Hne; by apply Hne).
    by rewrite (anonymousFields_first (findEmbedded o n) pre post f fv ev
                 Hpre Hvis Hanon Hev).
  - intros Hex Hcase Hemb.
    simpl. unfold findFieldWith. rewrite (Hnone _ Hex Hcase).
    rewrite decide_False by (intros Hne; by apply Hne).
    by rewrite (anonymousFields_none (findEmbedded o n) fs Hemb).
  - reflexivity.
  - reflexivity.
  - reflexivity.
Qed.

End FindFieldOrder.

Lemma findField_order_witness :
  @findField asciiStrings (mkOptions 0 false false true 46 92 "_" "-")
    (VStruct (plain "main.T") NoConv
       [(exported "NAME" "", VString (plain "string") "first");
        (exported "Name" "", VString (plain "string") "second")] false)
    "name"
  = Ok (Some (VString (plain "string") "second"))
  /\ @findField asciiStrings Default
       (VStruct (plain "main.Outer") NoConv
          [(reflect.mkField "Inner" "" [] true,
            VStruct (plain "main.Inner") NoConv
              [(exported "Foo" "", VString (plain "string") "inner")] false);
           (exported "Foo" "", VString (plain "string") "outer")] false)
       "Foo"
     = Ok (Some (VString (plain "string") "outer")).
Proof.
  split.
  - refine (proj1 (proj2 (@findField_order asciiStrings
              (mkOptions 0 false false true 46 92 "_" "-") "name"
              (plain "main.T") NoConv _ false))
              [(exported "NAME" "", VString (plain "string") "first")]
              (exported "Name" "") (VString (plain "string") "second") []
              eq_refl eq_refl _ _ _).
    + repeat constructor; intros [_ Heq]; discriminate Heq.
    + split; [discriminate | reflexivity].
    + constructor.
  - refine (proj1 (@findField_order asciiStrings Default "Foo"
              (plain "main.Outer") NoConv _ false)
              [(reflect.mkField "Inner" "" [] true,
                VStruct (plain "main.Inner") NoConv
                  [(exported "Foo" "", VString (plain "string") "inner")]
                  false)]
              (exported "Foo" "") (VString (plain "string") "outer") []
              eq_refl _ _).
    + repeat constructor; intros [_ Heq]; discriminate Heq.
    + split; [discriminate | reflexivity].
Defined.

(** C3, counterexample.  With [Caseless] on and the fields [NAME] and
    [Name], in this order, neither of which is the name ["name"] exactly:
    both match it up to case, [NAME] is the first of them in declaration
    order, and [findField] returns [Name], the last. *)
Lemma caseless_match_is_last :
  @caselessMatch asciiStrings (mkOptions 0 false false true 46 92 "_" "-")
    "name" (exported "NAME" "", VString (plain "string") "first")
  /\ @findField asciiStrings (mkOptions 0 false false true 46 92 "_" "-")
       (VStruct (plain "main.T") NoConv
          [(exported "NAME" "", VString (plain "string") "first");
           (exported "Name" "", VString (plain "string") "second")] false)
       "name"
     = Ok (Some (VString (plain "string") "second"))
  /\ @findField asciiStrings (mkOptions 0 false false true 46 92 "_" "-")
       (VStruct (plain "main.T") NoConv
          [(exported "NAME" "", VString (plain "string") "first");
           (exported "Name" "", VString (plain "string") "second")] false)
       "name"
     ≠ Ok (Some (VString (plain "string") "first")).
Proof.
  split; [split; [discriminate | reflexivity] |].
  split; [by vm_compute | by vm_compute].
Qed.

(** ** Escaping *)

Section Escaping.
Import Flattener.
Variables d e : rune.


Hypothesis distinct : d ≠ e.






End Escaping.




(** * Further properties *)

(** ** Options *)

(** X1.  Which error [Validate] reports.  The generic error is for
    [Options{}] alone; any other value is checked field by field, in the
    order delimiter, escape, implicit key, omitted key, and the first
    field found at its zero value decides the error.  [MustValidate]
    returns its argument exactly when [Validate] returns nil, and panics
    with the error of [Validate] otherwise. *)
Theorem Validate_first_failure (o : Options) :
  (Validate o = Some ErrInvalidOptions <-> o = Options_zero)
  /\ (Validate o = Some ErrInvalidDelimiter
      <-> o ≠ Options_zero /\ Delimiter o = 0)
  /\ (Validate o = Some ErrInvalidEscape
      <-> Delimiter o ≠ 0 /\ Escape o = 0)
  /\ (Validate o = Some ErrInvalidImplicitKey
      <-> Delimiter o ≠ 0 /\ Escape o ≠ 0 /\ ImplicitKey o = "")
  /\ (Validate o = Some ErrInvalidOmittedKey
      <-> Delimiter o ≠ 0 /\ Escape o ≠ 0 /\ ImplicitKey o ≠ ""
          /\ OmittedKey o = "")
  /\ (MustValidate o = inr o <-> Validate o = None)
  /\ (forall err, MustValidate o = inl err <-> Validate o = Some err).
Proof.
  assert (Hz : o = Options_zero -> Delimiter o = 0) by (by intros ->).
  unfold MustValidate, Validate.
  do 6 (split;
        [ repeat case_decide; split; intros Hx; simplify_eq;
          try done; try tauto; try (destruct_and?; congruence) |]).
  intros err.
  repeat case_decide; split; intros Hx; simplify_eq; done.
Qed.

(** ** The fluent setters, again *)

(** X2.  Setters of different fields commute, a second call of the same
    setter overrides the first, and on a pointer that holds no encoder
    every setter panics with the nil dereference, whatever the store. *)
Theorem setters_commute (h : gmap loc Encoder) (e : loc) (r r' : rune)
    (z : bool) :
  ('(e1, h1) ← DelimitWith e r h; EscapeWith e1 r' h1)
  = ('(e1, h1) ← EscapeWith e r' h; DelimitWith e1 r h1)
  /\ ('(e1, h1) ← DelimitWith e r h; KeepZeros e1 z h1)
     = ('(e1, h1) ← KeepZeros e z h; DelimitWith e1 r h1)
  /\ ('(e1, h1) ← EscapeWith e r h; KeepZeros e1 z h1)
     = ('(e1, h1) ← KeepZeros e z h; EscapeWith e1 r h1)
  /\ ('(e1, h1) ← DelimitWith e r h; DelimitWith e1 r' h1)
     = DelimitWith e r' h
  /\ ('(e1, h1) ← EscapeWith e r h; EscapeWith e1 r' h1)
     = EscapeWith e r' h
  /\ ('(e1, h1) ← KeepZeros e (negb z) h; KeepZeros e1 z h1)
     = KeepZeros e z h
  /\ (h !! e = None ->
      DelimitWith e r h = Panic nilDereference
      /\ EscapeWith e r h = Panic nilDereference
      /\ KeepZeros e z h = Panic nilDereference).
Proof.
  unfold DelimitWith, EscapeWith, KeepZeros.
  destruct (h !! e) as [enc |] eqn:Hh; simpl.
  - rewrite !lookup_insert_eq. simpl. rewrite !insert_insert_eq.
    repeat apply conj; try reflexivity. discriminate.
  - repeat apply conj; try reflexivity. by intros _.
Qed.

(** ** What the walk depends on *)

Section Independence.
Context `{NodeFile}.

Lemma fieldInfo_OmittedKey (o o' : Options) (f : reflect.StructField) :
  OmittedKey o = OmittedKey o' -> fieldInfo o f = fieldInfo o' f.
Proof. intros Hk. unfold fieldInfo. by rewrite Hk. Qed.

Lemma encodeStructWith_ext (enc enc' : reflect.flag -> data -> result iface)
    (o o' : Options) (fl : reflect.flag)
    (fs : list (reflect.StructField * data)) (n : node) :
  OmittedKey o = OmittedKey o' ->
  Forall (fun p => forall fl', enc fl' p.2 = enc' fl' p.2) fs ->
  encodeStructWith enc o fl fs n = encodeStructWith enc' o' fl fs n.
Proof.
  intros Hk Hfs. revert n.
  induction Hfs as [| [f fv] fs Hf _ IH]; intros n; [done |].
  rewrite !encodeStructWith_cons, (fieldInfo_OmittedKey o o' f Hk).
  destruct (fieldInfo o' f) as [k oe].
  case_decide; [apply IH |].
  destruct (if oe then isEmptyValue (flagField fl f) fv else Ok false)
    as [[] |]; simpl; [apply IH | | done].
  simpl in Hf. rewrite Hf.
  destruct (enc' (flagField fl f) fv); simpl; [apply IH | done].
Qed.

Lemma encodeElemsWith_ext (enc enc' : reflect.flag -> data -> result iface)
    (fl : reflect.flag) (elems : list data) (i : Z) (n : node) :
  Forall (fun x => forall fl', enc fl' x = enc' fl' x) elems ->
  encodeElemsWith enc fl elems i n = encodeElemsWith enc' fl elems i n.
Proof.
  intros Hall. revert i n.
  induction Hall as [| x elems Hx _ IH]; intros i n; [done |].
  simpl. rewrite Hx. destruct (enc' fl x); simpl; [apply IH | done].
Qed.

Lemma encodeMapWith_ext (enc enc' : reflect.flag -> data -> result iface)
    (fl : reflect.flag) (entries : list (data * data)) (n : node) :
  Forall (fun p => (forall fl', enc fl' p.1 = enc' fl' p.1)
                   /\ (forall fl', enc fl' p.2 = enc' fl' p.2)) entries ->
  encodeMapWith enc fl entries n = encodeMapWith enc' fl entries n.
Proof.
  intros Hall. revert n.
  induction Hall as [| [i x] entries [Hi Hx] _ IH]; intros n; [done |].
  simpl in *. rewrite Hi, Hx.
  destruct (enc' (flagMap fl) i); simpl; [| done].
  destruct (getString a); simpl; [| done].
  destruct (enc' (flagMap fl) x); simpl; [apply IH | done].
Qed.

Lemma encodeValue_ext (e e' : Encoder) :
  Zeros e = Zeros e' ->
  OmittedKey e = OmittedKey e' ->
  forall v fl, encodeValue e fl v = encodeValue e' fl v.
Proof.
  intros Hz Hk v.
  induction v as [ v Hleaf | m elems IH | m ek elems IH | m entries IH
                 | m b elem IH | m elem IH | m c fields eqZero IH ]
    using data_nested_ind; intros fl;
    rewrite (encodeValue_unfold e), (encodeValue_unfold e'), Hz.
  - by destruct v.
  - unfold encodeArray. by rewrite (encodeElemsWith_ext _ (encodeValue e')).
  - unfold encodeSlice. by rewrite (encodeElemsWith_ext _ (encodeValue e')).
  - unfold encodeMap. by rewrite (encodeMapWith_ext _ (encodeValue e')).
  - destruct elem as [x |]; [| done]. by rewrite IH.
  - destruct elem as [x |]; [| done]. by rewrite IH.
  - unfold encodeStruct.
    by rewrite (encodeStructWith_ext _ (encodeValue e') e e').
Qed.

Lemma encodeToNode_ext (e e' : Encoder) (v : data) :
  Zeros e = Zeros e' ->
  OmittedKey e = OmittedKey e' ->
  encodeToNode e v = encodeToNode e' v.
Proof.
  intros Hz Hk. unfold encodeToNode. by rewrite (encodeValue_ext e e' Hz Hk).
Qed.

(** X3.  The walk reads two options only: encoders that agree on [Zeros]
    and on [OmittedKey] encode every value alike, to the same node or
    with the same error, whatever their writers, delimiters, escapes and
    other options; when they agree on [Delimiter] and [Escape] too,
    [EncodeToStringWith] returns the same string for their options. *)
Theorem encodeValue_reads_two_options (e e' : Encoder) :
  Zeros e = Zeros e' ->
  OmittedKey e = OmittedKey e' ->
  (forall v fl, encodeValue e fl v = encodeValue e' fl v)
  /\ (forall v, encodeToNode e v = encodeToNode e' v)
  /\ (Delimiter e = Delimiter e' -> Escape e = Escape e' ->
      forall v, EncodeToStringWith v e = EncodeToStringWith v e').
Proof.
  intros Hz Hk. repeat apply conj.
  - by apply encodeValue_ext.
  - intros v. by apply encodeToNode_ext.
  - intros Hd He v. unfold EncodeToStringWith.
    rewrite (encodeToNode_ext (mkEncoder nilWriter e) (mkEncoder nilWriter e'))
      by done.
    by rewrite Hd, He.
Qed.

End Independence.

Lemma encodeValue_reads_two_options_witness :
  @encodeToNode scalarNodeFile (NewEncoder discard)
    (VInt (plain "int") reflect.KInt 7)
  = @encodeToNode scalarNodeFile
      (mkEncoder nilWriter (mkOptions 3 false true true 47 47 "" "-"))
      (VInt (plain "int") reflect.KInt 7).
Proof.
  destruct (@encodeValue_reads_two_options scalarNodeFile
              (NewEncoder discard)
              (mkEncoder nilWriter (mkOptions 3 false true true 47 47 "" "-")))
    as (_ & Hn & _).
  - reflexivity.
  - reflexivity.
  - apply Hn.
Defined.

(** ** Encode and EncodeToString *)

Lemma substring_all (s : string) : substring 0 (String.length s) s = s.
Proof. induction s as [| c s IH]; simpl; [done | by rewrite IH]. Qed.

Section Entry.
Context `{NodeFile}.

Lemma Encode_cases (e : Encoder) (dst : data) :
  ((Encode e dst).2 = None
   <-> exists n,
        encodeToNode e dst = (n, None)
        /\ answer (w e) (valuesEncode n (Delimiter e) (Escape e))
           = (Z.of_nat (String.length
                          (valuesEncode n (Delimiter e) (Escape e))), None))
  /\ (forall n,
      encodeToNode e dst = (n, None) ->
      (Encode e dst).2 = None ->
      written (Encode e dst).1
      = (written (w e) ++ [valuesEncode n (Delimiter e) (Escape e)])%list)
  /\ (forall n err,
      encodeToNode e dst = (n, Some err) ->
      Encode e dst = (w e, Some err)).
Proof.
  unfold Encode. destruct (encodeToNode e dst) as [n [err |]].
  - split; [| split].
    + split; [discriminate | by intros (n' & [=] & _)].
    + by intros n' [=].
    + by intros n' err' [= <- <-].
  - unfold WriteString.
    destruct (answer (w e) (valuesEncode n (Delimiter e) (Escape e)))
      as [l [err |]] eqn:Hans; simpl.
    + split; [| split]; [| by intros ? _ [=] | by intros ? ? [=]].
      split; [discriminate |].
      intros (n' & [= <-] & Ha). rewrite Hans in Ha. discriminate Ha.
    + case_decide as Hl; simpl.
      * split; [| split]; [| by intros ? _ [=] | by intros ? ? [=]].
        split; [discriminate |].
        intros (n' & [= <-] & Ha). rewrite Hans in Ha.
        injection Ha as Hl'. by destruct Hl.
      * subst l.
        split; [| split]; [| | by intros ? ? [=]].
        -- split; [intros _; exists n; by rewrite Hans | done].
        -- intros n' [= <-] _. by rewrite Nat2Z.id, substring_all.
Qed.

(** X4.  [Encode] returns nil exactly when the value was encoded to a
    node and the writer took the whole serialisation without error; the
    writer has then been given that string, once and in full.  When the
    value cannot be encoded the writer is not called. *)
Theorem Encode_nil_iff (e : Encoder) (dst : data) :
  ((Encode e dst).2 = None
   <-> exists n,
        encodeToNode e dst = (n, None)
        /\ answer (w e) (valuesEncode n (Delimiter e) (Escape e))
           = (Z.of_nat (String.length
                          (valuesEncode n (Delimiter e) (Escape e))), None))
  /\ (forall n,
      encodeToNode e dst = (n, None) ->
      (Encode e dst).2 = None ->
      written (Encode e dst).1
      = (written (w e) ++ [valuesEncode n (Delimiter e) (Escape e)])%list)
  /\ (forall n err,
      encodeToNode e dst = (n, Some err) ->
      Encode e dst = (w e, Some err)).
Proof. apply Encode_cases. Qed.

(** X5.  [Encode] and [EncodeToStringWith] agree.  When
    [EncodeToStringWith], with the options of the encoder, returns a
    string, a writer that takes it whole makes [Encode] write exactly
    that string and return nil; when it fails, its string is empty and
    [Encode] returns the same error without writing; and whenever
    [Encode] returns nil, what it wrote is the string
    [EncodeToStringWith] returns. *)
Theorem Encode_writes_EncodeToString (e : Encoder) (dst : data) :
  (forall s,
      EncodeToStringWith dst e = (s, None) ->
      answer (w e) s = (Z.of_nat (String.length s), None) ->
      Encode e dst
      = (mkWriter (written (w e) ++ [s])%list (answer (w e)), None))
  /\ (forall s err,
      EncodeToStringWith dst e = (s, Some err) ->
      s = "" /\ Encode e dst = (w e, Some err))
  /\ ((Encode e dst).2 = None ->
      exists s,
        EncodeToStringWith dst e = (s, None)
        /\ written (Encode e dst).1 = (written (w e) ++ [s])%list).
Proof.
  pose proof (Encode_cases e dst) as (Hiff & Hwritten & Herr).
  unfold EncodeToStringWith.
  rewrite (encodeToNode_ext (mkEncoder nilWriter e) e dst eq_refl eq_refl).
  destruct (encodeToNode e dst) as [n [err |]] eqn:Hn.
  - split; [| split].
    + by intros s [=].
    + intros s err' [= <- <-]. split; [done | by apply (Herr n)].
    + intros Hnil. apply Hiff in Hnil as (n' & [=] & _).
  - split; [| split].
    + intros s [= <-] Hans. unfold Encode, WriteString. rewrite Hn, Hans.
      rewrite decide_False by (intros Hne; by apply Hne).
      by rewrite Nat2Z.id, substring_all.
    + by intros s err [=].
    + intros Hnil. eexists. split; [reflexivity |]. by apply Hwritten.
Qed.

End Entry.

Lemma Encode_nil_iff_witness :
  snd (@Encode scalarNodeFile (NewEncoder discard)
         (VString (plain "string") "a")) = None.
Proof.
  apply (proj1 (@Encode_nil_iff scalarNodeFile (NewEncoder discard)
                  (VString (plain "string") "a"))).
  eexists. split; reflexivity.
Defined.

Lemma Encode_writes_EncodeToString_witness :
  fst (@EncodeToStringWith scalarNodeFile (VFunc (plain "func()")) Default) = ""
  /\ @Encode scalarNodeFile (NewEncoder discard) (VFunc (plain "func()"))
     = (discard, Some "func() has unsupported kind func").
Proof.
  destruct (proj1 (proj2 (@Encode_writes_EncodeToString scalarNodeFile
                            (NewEncoder discard) (VFunc (plain "func()"))))
              "" "func() has unsupported kind func" eq_refl) as [_ He].
  split; [reflexivity | exact He].
Defined.

(** ** Pointers, interfaces and basic kinds *)

Section Kinds.
Context `{NodeFile}.

Lemma encodeValue_plain (e : Encoder) (fl : reflect.flag) (v : data) :
  customText fl v = Ok ("", false) ->
  encodeValue e fl v
  = (t ← TypeOf v;
     empty ← (if Zeros e then Ok false else isEmptyValue fl v);
     if empty : bool then Ok (IString "")
     else
       match v with
       | VPtr _ _ (Some x) => encodeValue e (flagElemPtr fl) x
       | VInterface _ (Some x) => encodeValue e (flagElemInterface fl) x
       | VPtr _ _ None | VInterface _ None => Panic zeroValueType
       | VStruct _ (ToTime t') _ _ => IString <$> encodeTime fl t'
       | VStruct _ (ToURL u) _ _ => IString <$> encodeURL fl u
       | VStruct _ NoConv fs _ => encodeStruct e fl fs
       | VSlice _ ek elems => encodeSlice e fl ek elems
       | VArray _ elems => encodeArray e fl elems
       | VMap _ entries => encodeMap e fl entries
       | Zero | VUint _ reflect.KUintptr _ | VUnsafePointer _ | VChan _
       | VFunc _ => Panic (unsupportedKind t)
       | _ => IString <$> encodeBasic t v
       end).
Proof.
  intros Hm. rewrite encodeValue_unfold. unfold customText in Hm.
  unfold mbind, result_bind in *.
  destruct (TypeOf v) as [t |]; [| done]. by rewrite Hm.
Qed.

(** X6.  Pointers and interfaces without custom text are transparent: a
    non-nil one is encoded as what it holds, whatever [Zeros].  A nil one
    is the empty string when [Zeros] is off; when [Zeros] is on the walk
    steps into the nil value and the encoding fails with the message of
    [reflect] for the zero Value. *)
Theorem pointers_are_transparent (e : Encoder) (fl : reflect.flag)
    (m : reflect.meta) (b : bool) (elem : option data) :
  (customText fl (VPtr m b elem) = Ok ("", false) ->
   encodeValue e fl (VPtr m b elem)
   = match elem with
     | Some x => encodeValue e (flagElemPtr fl) x
     | None => if Zeros e then Panic zeroValueType else Ok (IString "")
     end)
  /\ (customText fl (VInterface m elem) = Ok ("", false) ->
      encodeValue e fl (VInterface m elem)
      = match elem with
        | Some x => encodeValue e (flagElemInterface fl) x
        | None => if Zeros e then Panic zeroValueType else Ok (IString "")
        end).
Proof.
  split; intros Hm; rewrite (encodeValue_plain _ _ _ Hm); simpl;
    destruct (Zeros e), elem; reflexivity.
Qed.

(** X7.  Basic kinds without custom text.  A string is encoded as
    itself, whatever [Zeros].  A boolean, an integer, an unsigned integer
    (not a [uintptr]) and a float are encoded as their literal, except
    that with [Zeros] off the zero value ([false], 0) is the empty
    string. *)
Theorem basic_kinds (e : Encoder) (fl : reflect.flag) (m : reflect.meta) :
  (forall s,
      customText fl (VString m s) = Ok ("", false) ->
      encodeValue e fl (VString m s) = Ok (IString s))
  /\ (forall b,
      customText fl (VBool m b) = Ok ("", false) ->
      encodeValue e fl (VBool m b)
      = Ok (IString (if Zeros e || b then FormatBool b else "")))
  /\ (forall k i,
      customText fl (VInt m k i) = Ok ("", false) ->
      encodeValue e fl (VInt m k i)
      = Ok (IString (if Zeros e || negb (bool_decide (i = 0))
                     then FormatInt i else "")))
  /\ (forall k u,
      k ≠ reflect.KUintptr ->
      customText fl (VUint m k u) = Ok ("", false) ->
      encodeValue e fl (VUint m k u)
      = Ok (IString (if Zeros e || negb (bool_decide (u = 0))
                     then FormatUint u else "")))
  /\ (forall k f,
      customText fl (VFloat m k f) = Ok ("", false) ->
      encodeValue e fl (VFloat m k f)
      = Ok (IString (if Zeros e || negb (reflect.isZero f)
                     then reflect.text f else ""))).
Proof.
  split; [| split; [| split; [| split]]].
  - intros s Hm. rewrite (encodeValue_plain _ _ _ Hm). simpl.
    destruct (Zeros e); simpl; [done |].
    case_bool_decide as Hlen; simpl; [| done]. by destruct s.
  - intros b Hm. rewrite (encodeValue_plain _ _ _ Hm). simpl.
    by destruct (Zeros e), b.
  - intros k i Hm. rewrite (encodeValue_plain _ _ _ Hm). simpl.
    destruct (Zeros e); simpl; [done |]. by case_bool_decide.
  - intros k u Hk Hm. rewrite (encodeValue_plain _ _ _ Hm). simpl.
    destruct (Zeros e); simpl; [by destruct k |].
    case_bool_decide; simpl; [done | by destruct k].
  - intros k f Hm. rewrite (encodeValue_plain _ _ _ Hm). simpl.
    destruct (Zeros e); simpl; [done |]. by destruct (reflect.isZero f).
Qed.

(** X8.  A [MarshalText] with a pointer receiver (found on the address
    of the value, not on the value) is used only where [reflect] can take
    the address: for the elements of a slice and for what a pointer
    points to, the value is encoded as the marshaled text; for the value
    handed to the encoder, for map keys and values and for what an
    interface holds, no custom text is found. *)
Theorem pointer_receiver_needs_address (e : Encoder) (v : data)
    (t : reflect.rtype) (s : string) :
  TypeOf v = Ok t ->
  skipTextMarshalling t = false ->
  reflect.valueMarshal (metaOf v) = None ->
  reflect.addrMarshal (metaOf v) = Some (inl s) ->
  (forall fl,
      reflect.flagRO fl = false ->
      encodeValue e (flagIndexSlice fl) v = Ok (IString s)
      /\ encodeValue e (flagElemPtr fl) v = Ok (IString s)
      /\ customText (flagMap fl) v = Ok ("", false)
      /\ customText (flagElemInterface fl) v = Ok ("", false))
  /\ customText reflect.flagValueOf v = Ok ("", false).
Proof.
  intros Ht Hskip Hv Ha.
  assert (Hno : forall fl,
             reflect.flagRO fl = false -> reflect.flagAddr fl = false ->
             customText fl v = Ok ("", false)).
  { intros fl Hro Haddr. unfold customText. rewrite Ht. simpl.
    unfold valueOf. rewrite Haddr, Hv. cbn [marshalValue].
    rewrite Hskip. unfold Interface. by rewrite Hro. }
  assert (Hyes : forall fl,
             reflect.flagRO fl = false -> reflect.flagAddr fl = true ->
             encodeValue e fl v = Ok (IString s)).
  { intros fl Hro Haddr.
    pose proof (marshalValue_found t fl v (inl s) Hskip Hro
                  (or_intror (conj Hv (conj Haddr Ha)))) as Hm.
    rewrite encodeValue_unfold, Ht. simpl in Hm |- *. by rewrite Hm. }
  split; [| by apply Hno].
  intros fl Hro.
  assert (Hro' : forall a, reflect.flagRO
                   (reflect.mkFlag (reflect.flagRO fl) false a) = false).
  { intros a. unfold reflect.flagRO in *. simpl. by rewrite Hro. }
  split; [| split; [| split]].
  - apply Hyes; [apply Hro' | done].
  - apply Hyes; [exact Hro | done].
  - apply Hno; [apply Hro' | done].
  - apply Hno; [apply Hro' | done].
Qed.

End Kinds.

Lemma pointers_are_transparent_witness :
  @encodeValue scalarNodeFile (mkEncoder discard (setZeros true Default))
    reflect.flagValueOf (VPtr (plain "*int") false None)
  = Panic zeroValueType.
Proof.
  apply (proj1 (@pointers_are_transparent scalarNodeFile
                  (mkEncoder discard (setZeros true Default))
                  reflect.flagValueOf (plain "*int") false None)).
  reflexivity.
Defined.

Lemma basic_kinds_witness :
  @encodeValue scalarNodeFile (NewEncoder discard) reflect.flagValueOf
    (VInt (plain "int") reflect.KInt (-12))
  = Ok (IString "-12").
Proof.
  apply (proj1 (proj2 (proj2 (@basic_kinds scalarNodeFile (NewEncoder discard)
                                reflect.flagValueOf (plain "int"))))
           reflect.KInt (-12)).
  reflexivity.
Defined.

Lemma pointer_receiver_needs_address_witness :
  @encodeValue scalarNodeFile (NewEncoder discard)
    (flagIndexSlice reflect.flagValueOf)
    (VInt (reflect.mkMeta "main.ID" None (Some (inl "id-0"))) reflect.KInt 0)
  = Ok (IString "id-0")
  /\ customText reflect.flagValueOf
       (VInt (reflect.mkMeta "main.ID" None (Some (inl "id-0"))) reflect.KInt 0)
     = Ok ("", false).
Proof.
  destruct (@pointer_receiver_needs_address scalarNodeFile (NewEncoder discard)
              (VInt (reflect.mkMeta "main.ID" None (Some (inl "id-0")))
                    reflect.KInt 0)
              (reflect.mkType "main.ID" reflect.Int (fun _ => false)
                              reflect.Invalid)
              "id-0" eq_refl eq_refl eq_refl eq_refl) as [Hfl Htop].
  destruct (Hfl reflect.flagValueOf eq_refl) as (Hslice & _).
  split; [exact Hslice | exact Htop].
Defined.

(** ** Arrays, slices and maps *)

Section Containers.
Context `{NodeFile}.

Lemma Itoa_inj (i j : Z) : Itoa i = Itoa j -> i = j.
Proof. unfold Itoa. apply (inj pretty). Qed.

(** The loop over the elements, from index [i] and node [n] on. *)
Lemma encodeElemsWith_lookup (enc : reflect.flag -> data -> result iface)
    (fl : reflect.flag) (elems : list data) (i : Z) (n : node) (x : iface) :
  encodeElemsWith enc fl elems i n = Ok x ->
  exists n',
    x = INode n'
    /\ (forall (j : nat) v,
        elems !! j = Some v ->
        exists y, enc fl v = Ok y /\ n' !! Itoa (i + Z.of_nat j) = Some y)
    /\ (forall k,
        (forall j : nat, (j < List.length elems)%nat ->
                         k ≠ Itoa (i + Z.of_nat j)) ->
        n' !! k = n !! k).
Proof.
  revert i n. induction elems as [| v0 elems IH]; intros i n; simpl.
  - intros [= <-]. by exists n.
  - destruct (enc fl v0) as [y0 |] eqn:Hv0; simpl; [| discriminate].
    intros Hx. destruct (IH _ _ Hx) as (n' & -> & Hidx & Hkeys).
    exists n'. split; [done |]. split.
    + intros [| j] v Hv; simpl in Hv.
      * injection Hv as <-. exists y0. split; [done |].
        rewrite Z.add_0_r, Hkeys; [apply lookup_insert_eq |].
        intros j _ Hj. apply Itoa_inj in Hj. lia.
      * destruct (Hidx j v Hv) as (y & Hy & Hn'). exists y. split; [done |].
        by replace (i + Z.of_nat (S j)) with (i + 1 + Z.of_nat j) by lia.
    + intros k Hk. rewrite Hkeys.
      * apply lookup_insert_ne. intros Hi. apply (Hk 0%nat); [lia |].
        by rewrite Z.add_0_r.
      * intros j Hj. replace (i + 1 + Z.of_nat j) with (i + Z.of_nat (S j))
          by lia. apply Hk. lia.
Qed.

(** The keys of a node built from the empty node by that loop are
    indices. *)
Lemma encodeElemsWith_keys (enc : reflect.flag -> data -> result iface)
    (fl : reflect.flag) (elems : list data) (n : node) (k : string) :
  encodeElemsWith enc fl elems 0 ∅ = Ok (INode n) ->
  is_Some (n !! k) ->
  exists j : nat, (j < List.length elems)%nat /\ k = Itoa (Z.of_nat j).
Proof.
  intros Hx Hk.
  destruct (encodeElemsWith_lookup _ _ _ _ _ _ Hx) as (n' & [= <-] & _ & Hkeys).
  destruct (decide (k ∈ (fun j : nat => Itoa (Z.of_nat j))
                        <$> seq 0 (List.length elems))) as [Hin | Hnot].
  - apply list_elem_of_fmap in Hin as (j & -> & Hj).
    apply elem_of_seq in Hj. exists j. split; [lia | done].
  - rewrite Hkeys, lookup_empty in Hk; [by destruct Hk |].
    intros j Hj ->. apply Hnot. apply list_elem_of_fmap.
    exists j. split; [done |]. apply elem_of_seq. lia.
Qed.

(** X9.  The node of an array, or of a slice that is not a byte slice,
    holds each element under its index in decimal, and holds nothing
    else. *)
Theorem elements_are_indexed (e : Encoder) (fl : reflect.flag)
    (ek : reflect.Kind) (elems : list data) (x : iface) :
  (encodeArray e fl elems = Ok x ->
   exists n,
     x = INode n
     /\ (forall (j : nat) v,
         elems !! j = Some v ->
         exists y, encodeValue e (flagIndexArray fl) v = Ok y
                   /\ n !! Itoa (Z.of_nat j) = Some y)
     /\ (forall k, is_Some (n !! k) ->
         exists j : nat, (j < List.length elems)%nat
                         /\ k = Itoa (Z.of_nat j)))
  /\ (ek ≠ reflect.Uint8 ->
      encodeSlice e fl ek elems = Ok x ->
      exists n,
        x = INode n
        /\ (forall (j : nat) v,
            elems !! j = Some v ->
            exists y, encodeValue e (flagIndexSlice fl) v = Ok y
                      /\ n !! Itoa (Z.of_nat j) = Some y)
        /\ (forall k, is_Some (n !! k) ->
            exists j : nat, (j < List.length elems)%nat
                            /\ k = Itoa (Z.of_nat j))).
Proof.
  split.
  - unfold encodeArray. intros Hx.
    destruct (encodeElemsWith_lookup _ _ _ _ _ _ Hx) as (n & -> & Hidx & _).
    exists n. split; [done |]. split; [exact Hidx |].
    intros k. by apply encodeElemsWith_keys with (enc := encodeValue e) (fl := flagIndexArray fl).
  - unfold encodeSlice. intros Hek. rewrite decide_False by done. intros Hx.
    destruct (encodeElemsWith_lookup _ _ _ _ _ _ Hx) as (n & -> & Hidx & _).
    exists n. split; [done |]. split; [exact Hidx |].
    intros k. by apply encodeElemsWith_keys with (enc := encodeValue e) (fl := flagIndexSlice fl).
Qed.

Lemma encodeMapWith_app (enc : reflect.flag -> data -> result iface)
    (fl : reflect.flag) (pre rest : list (data * data)) (n : node)
    (x : iface) :
  encodeMapWith enc fl (pre ++ rest) n = Ok x ->
  exists n1, encodeMapWith enc fl pre n = Ok (INode n1)
             /\ encodeMapWith enc fl rest n1 = Ok x.
Proof.
  revert n. induction pre as [| [j y] pre IH]; intros n; simpl.
  - intros Hx. by exists n.
  - destruct (enc (flagMap fl) j); simpl; [| discriminate].
    destruct (getString a); simpl; [| discriminate].
    destruct (enc (flagMap fl) y); simpl; [apply IH | discriminate].
Qed.

Lemma encodeMapWith_other_keys (e : Encoder) (fl : reflect.flag)
    (k : string) (entries : list (data * data)) (n : node) (x : iface) :
  Forall (fun p => ~ keyString e fl p.1 k) entries ->
  encodeMapWith (encodeValue e) fl entries n = Ok x ->
  exists n', x = INode n' /\ n' !! k = n !! k.
Proof.
  intros Hkeys. revert n.
  induction Hkeys as [| [j y] rest Hj _ IH]; intros n; simpl.
  - intros [= <-]. by exists n.
  - destruct (encodeValue e (flagMap fl) j) as [kj |] eqn:Hkj; simpl;
      [| discriminate].
    destruct (getString kj) as [k' |] eqn:Hk'; simpl; [| discriminate].
    destruct (encodeValue e (flagMap fl) y); simpl; [| discriminate].
    intros Hx. destruct (IH _ Hx) as (n' & -> & Hn').
    exists n'. split; [done |]. rewrite Hn'. apply lookup_insert_ne.
    intros ->. apply Hj. by exists kj.
Qed.

(** X10.  In the node of a map, the value of an entry is found under the
    string its key becomes, provided no later entry has a key that
    becomes the same string (the last write wins); and a string that no
    key becomes is not a key of the node. *)
Theorem map_last_write_wins (e : Encoder) (fl : reflect.flag)
    (entries : list (data * data)) (n : node) :
  encodeMap e fl entries = Ok (INode n) ->
  (forall pre i x post k,
      entries = (pre ++ (i, x) :: post)%list ->
      keyString e fl i k ->
      Forall (fun p => ~ keyString e fl p.1 k) post ->
      exists y, encodeValue e (flagMap fl) x = Ok y /\ n !! k = Some y)
  /\ (forall k,
      Forall (fun p => ~ keyString e fl p.1 k) entries ->
      n !! k = None).
Proof.
  unfold encodeMap. intros Hn. split.
  - intros pre i x post k -> (ki & Hki & Hk) Hpost.
    apply encodeMapWith_app in Hn as (n1 & _ & Hrest).
    simpl in Hrest. rewrite Hki in Hrest. simpl in Hrest.
    rewrite Hk in Hrest. simpl in Hrest.
    destruct (encodeValue e (flagMap fl) x) as [y |]; simpl in Hrest;
      [| discriminate].
    destruct (encodeMapWith_other_keys _ _ k _ _ _ Hpost Hrest)
      as (n' & [= <-] & ->).
    exists y. split; [done | apply lookup_insert_eq].
  - intros k Hall.
    destruct (encodeMapWith_other_keys _ _ k _ _ _ Hall Hn)
      as (n' & [= <-] & ->).
    apply lookup_empty.
Qed.

End Containers.

Lemma elements_are_indexed_witness :
  exists n,
    @encodeSlice scalarNodeFile (NewEncoder discard) reflect.flagValueOf
      reflect.String
      [VString (plain "string") "a"; VString (plain "string") "b"]
    = Ok (INode n)
    /\ n !! Itoa 1 = Some (IString "b").
Proof.
  destruct (proj2 (@elements_are_indexed scalarNodeFile (NewEncoder discard)
                     reflect.flagValueOf reflect.String
                     [VString (plain "string") "a";
                      VString (plain "string") "b"] _)
              ltac:(discriminate) eq_refl) as (n & Hn & Hidx & _).
  exists n. split; [by rewrite <- Hn |].
  destruct (Hidx 1%nat (VString (plain "string") "b") eq_refl)
    as (y & Hy & Hk).
  injection Hy as <-. exact Hk.
Defined.

Lemma map_last_write_wins_witness :
  (<["k" := IString "second"]> (<["k" := IString "first"]> ∅) : node) !! "k"
  = Some (IString "second").
Proof.
  destruct (proj1 (@map_last_write_wins scalarNodeFile (NewEncoder discard)
                     reflect.flagValueOf
                     [(VString (plain "string") "k",
                       VString (plain "string") "first");
                      (VString (plain "main.Key") "k",
                       VString (plain "string") "second")]
                     (<["k" := IString "second"]>
                        (<["k" := IString "first"]> ∅))
                     eq_refl)
              [(VString (plain "string") "k",
                VString (plain "string") "first")]
              (VString (plain "main.Key") "k")
              (VString (plain "string") "second") [] "k" eq_refl)
    as (y & Hy & Hk).
  - exists (IString "k"). split; reflexivity.
  - constructor.
  - injection Hy as <-. exact Hk.
Defined.

(** ** Structs *)

Section Structs.
Context `{NodeFile}.

Lemma encodeStructWith_filter (enc : reflect.flag -> data -> result iface)
    (o : Options) (fl : reflect.flag)
    (fs : list (reflect.StructField * data)) (n : node) :
  encodeStructWith enc o fl fs n
  = encodeStructWith enc o fl
      (filter (fun p => (fieldInfo o p.1).1 ≠ "-") fs) n.
Proof.
  revert n. induction fs as [| [f fv] fs IH]; intros n; [done |].
  rewrite encodeStructWith_cons.
  destruct (fieldInfo o f) as [k oe] eqn:Hfi.
  case_decide as Hk.
  - rewrite filter_cons_False by (simpl; rewrite Hfi; simpl; tauto).
    apply IH.
  - rewrite filter_cons_True by (simpl; by rewrite Hfi).
    rewrite encodeStructWith_cons, Hfi. rewrite decide_False by done.
    destruct (if oe then isEmptyValue (flagField fl f) fv else Ok false)
      as [[] |]; simpl; [apply IH | | done].
    destruct (enc (flagField fl f) fv); simpl; [apply IH | done].
Qed.

(** X11.  [encodeStruct] drops the fields whose key is ["-"]: the result
    is that of the struct without them, so what they hold is never
    encoded, and ["-"] is never a key of the node.  With the omitted key
    at its standard value ["-"], the unexported fields are among them. *)
Theorem dash_fields_are_dropped (e : Encoder) (fl : reflect.flag)
    (fs : list (reflect.StructField * data)) :
  encodeStruct e fl fs
  = encodeStruct e fl (filter (fun p => (fieldInfo e p.1).1 ≠ "-") fs)
  /\ (forall n, encodeStruct e fl fs = Ok (INode n) -> n !! "-" = None)
  /\ (OmittedKey e = "-" ->
      encodeStruct e fl fs
      = encodeStruct e fl
          (filter (fun p => reflect.PkgPath p.1 = ""
                            /\ (fieldInfo e p.1).1 ≠ "-") fs)).
Proof.
  unfold encodeStruct. split; [apply encodeStructWith_filter |]. split.
  - intros n. rewrite encodeStructWith_filter. intros Hn.
    apply (encodeStructWith_other_keys _ _ _ "-") in Hn
      as (n' & [= <-] & ->); [apply lookup_empty |].
    apply Forall_forall. intros p Hp. by apply list_elem_of_filter in Hp as [].
  - intros Hom. rewrite encodeStructWith_filter. f_equal.
    apply list_filter_iff. intros [f fv]. simpl. split; [| tauto].
    intros Hk. split; [| done].
    destruct (decide (reflect.PkgPath f = "")) as [| Hp]; [done |].
    destruct Hk. unfold fieldInfo. by rewrite decide_True.
Qed.

(** X12.  A struct all of whose fields are either dropped (key ["-"]) or
    [omitempty] and empty is encoded as the empty node: it adds no
    key. *)
Theorem empty_struct_vanishes (e : Encoder) (fl : reflect.flag)
    (fs : list (reflect.StructField * data)) :
  Forall (fun p => (fieldInfo e p.1).1 = "-"
                   \/ ((fieldInfo e p.1).2 = true
                       /\ isEmptyValue (flagField fl p.1) p.2 = Ok true)) fs ->
  encodeStruct e fl fs = Ok (INode ∅).
Proof.
  unfold encodeStruct. intros Hfs.
  induction Hfs as [| [f fv] fs Hf _ IH]; [done |].
  rewrite encodeStructWith_cons. simpl in Hf.
  destruct (fieldInfo e f) as [k oe]. simpl in Hf.
  case_decide as Hk; [exact IH |].
  destruct Hf as [Hf | [-> Hemp]]; [done |].
  rewrite Hemp. simpl. by rewrite delete_empty.
Qed.

End Structs.

Lemma dash_fields_are_dropped_witness :
  @encodeStruct scalarNodeFile (NewEncoder discard) reflect.flagValueOf
    [(reflect.mkField "hidden" "main" [] false, VFunc (plain "func()"));
     (exported "A" "", VInt (plain "int") reflect.KInt 1)]
  = @encodeStruct scalarNodeFile (NewEncoder discard) reflect.flagValueOf
      [(exported "A" "", VInt (plain "int") reflect.KInt 1)].
Proof.
  destruct (@dash_fields_are_dropped scalarNodeFile (NewEncoder discard)
              reflect.flagValueOf
              [(reflect.mkField "hidden" "main" [] false, VFunc (plain "func()"));
               (exported "A" "", VInt (plain "int") reflect.KInt 1)])
    as (_ & _ & Hdrop).
  rewrite (Hdrop eq_refl). reflexivity.
Defined.

Lemma empty_struct_vanishes_witness :
  @encodeStruct scalarNodeFile (NewEncoder discard) reflect.flagValueOf
    [(exported "A" "a,omitempty", VInt (plain "int") reflect.KInt 0);
     (exported "B" "-", VString (plain "string") "kept out")]
  = Ok (INode ∅).
Proof.
  apply (@empty_struct_vanishes scalarNodeFile).
  constructor; [right; split; reflexivity |].
  constructor; [left; reflexivity | constructor].
Defined.

(** ** The tag of a field *)

Lemma cut_noComma (s : string) : noComma s -> cut "," s = None.
Proof.
  induction s as [| c s IH]; cbn [cut noComma]; [done |].
  intros [Hc Hs]. case_decide; [done |]. by rewrite IH.
Qed.

Lemma cut_first_comma (name opts : string) :
  noComma name -> cut "," (name ++ String "," opts) = Some (name, opts).
Proof.
  induction name as [| c name IH]; simpl.
  - intros _. first [done | by case_decide].
  - intros [Hc Hname]. case_decide; [done |]. by rewrite IH.
Qed.

(** X13.  The grammar of the [form] tag, as [fieldInfo] reads it.  An
    unexported field has the omitted key of the options and no
    [omitempty], whatever its tag.  An exported field without tag has its
    own name.  A tag without comma is the key.  In a tag with a comma,
    the text before the first comma is the key, the name of the field
    standing in when that text is empty, and [omitempty] holds exactly
    when the text after that comma is ["omitempty"]. *)
Theorem tag_grammar (o : Options) (f : reflect.StructField) :
  (reflect.PkgPath f ≠ "" -> fieldInfo o f = (OmittedKey o, false))
  /\ (reflect.PkgPath f = "" ->
      reflect.Get (reflect.Tag f) "form" = "" ->
      fieldInfo o f = (reflect.Name f, false))
  /\ (forall name,
      reflect.PkgPath f = "" ->
      reflect.Get (reflect.Tag f) "form" = name ->
      name ≠ "" -> noComma name ->
      fieldInfo o f = (name, false))
  /\ (forall name opts,
      reflect.PkgPath f = "" ->
      reflect.Get (reflect.Tag f) "form" = name ++ String "," opts ->
      noComma name ->
      fieldInfo o f
      = (if decide (name = "") then reflect.Name f else name,
         bool_decide (opts = "omitempty"))).
Proof.
  unfold fieldInfo. split; [| split; [| split]].
  - intros Hp. by rewrite decide_True.
  - intros Hp Htag. rewrite decide_False by (by intros []).
    by rewrite Htag, decide_True.
  - intros name Hp Htag Hne Hname. rewrite decide_False by (by intros []).
    rewrite Htag, decide_False by done.
    unfold SplitN2. rewrite (cut_noComma _ Hname). simpl.
    by rewrite decide_True.
  - intros name opts Hp Htag Hname. rewrite decide_False by (by intros []).
    rewrite Htag. rewrite decide_False by (by destruct name).
    unfold SplitN2. rewrite (cut_first_comma _ _ Hname). simpl.
    destruct (decide (name = "")) as [-> | Hne].
    + by rewrite decide_False by (by intros []).
    + by rewrite decide_True.
Qed.

Lemma tag_grammar_witness :
  fieldInfo Default (exported "Age" "age,omitempty") = ("age", true)
  /\ fieldInfo Default (exported "Age" ",omitempty") = ("Age", true)
  /\ fieldInfo Default (exported "Age" "age,omitempty,x") = ("age", false).
Proof.
  split; [| split].
  - apply (proj2 (proj2 (proj2 (tag_grammar Default
                                  (exported "Age" "age,omitempty"))))
             "age" "omitempty" eq_refl eq_refl).
    simpl. repeat split; discriminate.
  - apply (proj2 (proj2 (proj2 (tag_grammar Default
                                  (exported "Age" ",omitempty"))))
             "" "omitempty" eq_refl eq_refl).
    exact I.
  - apply (proj2 (proj2 (proj2 (tag_grammar Default
                                  (exported "Age" "age,omitempty,x"))))
             "age" "omitempty,x" eq_refl eq_refl).
    simpl. repeat split; discriminate.
Defined.

(** ** findField, again *)

Section FindFieldSound.
Context `{Strings}.
Variables (o : Options) (n : string).

Lemma namedFields_sound (lowerN : string)
    (fs : list (reflect.StructField * data)) (i cim : Z) :
  match namedFields o n lowerN fs i cim with
  | inl fv => exists f, (f, fv) ∈ fs /\ visible o f /\ n = (fieldInfo o f).1
  | inr c =>
      c = cim
      \/ (Caseless o = true /\ i <= c
          /\ exists f fv,
              fs !! Z.to_nat (c - i) = Some (f, fv) /\ visible o f
              /\ lowerN = ToLower (fieldInfo o f).1)
  end.
Proof.
  revert i cim. induction fs as [| [g gv] fs IH]; intros i cim; simpl.
  - by left.
  - assert (Hshift : forall cim',
      match namedFields o n lowerN fs (i + 1) cim' with
      | inl fv => exists f, (f, fv) ∈ fs /\ visible o f
                            /\ n = (fieldInfo o f).1
      | inr c =>
          c = cim'
          \/ (Caseless o = true /\ i + 1 <= c
              /\ exists f fv,
                  fs !! Z.to_nat (c - (i + 1)) = Some (f, fv) /\ visible o f
                  /\ lowerN = ToLower (fieldInfo o f).1)
      end ->
      match namedFields o n lowerN fs (i + 1) cim' with
      | inl fv => exists f, (f, fv) ∈ (g, gv) :: fs /\ visible o f
                            /\ n = (fieldInfo o f).1
      | inr c =>
          c = cim'
          \/ (Caseless o = true /\ i <= c
              /\ exists f fv,
                  ((g, gv) :: fs) !! Z.to_nat (c - i) = Some (f, fv)
                  /\ visible o f /\ lowerN = ToLower (fieldInfo o f).1)
      end).
    { intros cim'.
      destruct (namedFields o n lowerN fs (i + 1) cim') as [fv | c].
      - intros (f & Hin & Hf). exists f. split; [by right | done].
      - intros [-> | (Hc & Hle & f & fv & Hlook & Hf)]; [by left | right].
        split; [done |]. split; [lia |]. exists f, fv. split; [| done].
        replace (Z.to_nat (c - i)) with (S (Z.to_nat (c - (i + 1)))) by lia.
        exact Hlook. }
    case_decide as Hom; [apply Hshift, IH |].
    case_decide as Hn.
    { exists g. split; [by left | done]. }
    destruct (Caseless o) eqn:Hcase; simpl; [| apply Hshift, IH].
    case_bool_decide as Hlow; [| apply Hshift, IH].
    pose proof (Hshift i (IH (i + 1) i)) as Hrest.
    destruct (namedFields o n lowerN fs (i + 1) i) as [fv | c]; [done |].
    destruct Hrest as [-> | Hrest]; [| by right].
    right. split; [done |]. split; [lia |]. exists g, gv.
    replace (Z.to_nat (i - i)) with 0%nat by lia. done.
Qed.

Lemma anonymousFields_sound (rec : data -> option data)
    (fs : list (reflect.StructField * data)) (ev : data) :
  anonymousFields rec o fs = Some ev ->
  exists f fv, (f, fv) ∈ fs /\ visible o f /\ reflect.Anonymous f = true
               /\ rec fv = Some ev.
Proof.
  induction fs as [| [g gv] fs IH]; simpl; [done |].
  assert (Hrest : anonymousFields rec o fs = Some ev ->
                  exists f fv, (f, fv) ∈ (g, gv) :: fs /\ visible o f
                               /\ reflect.Anonymous f = true
                               /\ rec fv = Some ev).
  { intros Hfs. destruct (IH Hfs) as (f & fv & Hin & Hf).
    exists f, fv. split; [by right | done]. }
  case_bool_decide as Hom; simpl; [exact Hrest |].
  destruct (reflect.Anonymous g) eqn:Hanon; simpl; [| exact Hrest].
  destruct (rec gv) as [ev' |] eqn:Hgv; [| exact Hrest].
  intros [= <-]. exists g, gv. split; [by left | done].
Qed.

Lemma findEmbedded_sound (v ev : data) :
  findEmbedded o n v = Some ev -> fieldOf o n v ev.
Proof.
  revert ev.
  induction v as [ v Hleaf | m elems IH | m ek elems IH | m entries IH
                 | m b elem IH | m elem IH | m c fields eqZero IH ]
    using data_nested_ind; intros ev; try discriminate.
  - by destruct v.
  - destruct elem as [x |]; [| discriminate]. simpl.
    intros Hx. apply fieldOf_ptr. by apply IH.
  - destruct elem as [x |]; [| discriminate]. simpl.
    intros Hx. apply fieldOf_interface. by apply IH.
  - simpl. unfold findFieldWith.
    pose proof (namedFields_sound (if Caseless o then ToLower n else "")
                  fields 0 (-1)) as Hnamed.
    destruct (namedFields o n (if Caseless o then ToLower n else "")
                fields 0 (-1)) as [fv | ci].
    + intros [= <-]. destruct Hnamed as (f & Hin & Hvis & Hkey).
      apply (fieldOf_here o n m c fields eqZero f fv Hin).
      split; [done | by left].
    + case_decide as Hci.
      * destruct Hnamed as [-> | (Hcase & Hle & f & fv & Hlook & Hvis & Hlow)];
          [done |].
        rewrite Z.sub_0_r in Hlook. rewrite Hlook. simpl. intros [= <-].
        apply (fieldOf_here o n m c fields eqZero f fv).
        -- apply list_elem_of_lookup. by eexists.
        -- split; [done |]. right. split; [done |]. by rewrite Hcase in Hlow.
      * intros Hanon.
        apply anonymousFields_sound in Hanon
          as (f & fv & Hin & Hvis & Hanon & Hrec).
        apply (fieldOf_embedded o n m c fields eqZero f fv ev Hin Hvis Hanon).
        rewrite Forall_forall in IH. by apply (IH (f, fv) Hin).
Qed.

Lemma fieldOf_not_omitted (v ev : data) :
  Caseless o = false -> n = OmittedKey o -> ~ fieldOf o n v ev.
Proof.
  intros Hcase Hn Hfield.
  induction Hfield as [ m c fs eqZero f fv _ [Hvis Hmatch] | | |]; try done.
  destruct Hmatch as [Hkey | [Hc _]]; [| congruence].
  apply Hvis. congruence.
Qed.

(** X14.  What [findField] returns is the value of a visible field that
    answers to the name, exactly or, with [Caseless] on, up to case, in
    the struct itself or in a struct reached through visible embedded
    fields, pointers and interfaces.  In particular, with [Caseless] off,
    the omitted key itself is never found. *)
Theorem findField_sound (v : data) :
  (forall ev, findField o v n = Ok (Some ev) -> fieldOf o n v ev)
  /\ (Caseless o = false -> n = OmittedKey o ->
      forall ev, findField o v n ≠ Ok (Some ev)).
Proof.
  assert (Hsound : forall ev, findField o v n = Ok (Some ev) ->
                              fieldOf o n v ev).
  { intros ev Hfind. apply findEmbedded_sound.
    destruct v; try discriminate. by injection Hfind. }
  split; [exact Hsound |].
  intros Hcase Hn ev Hfind.
  by apply (fieldOf_not_omitted v ev Hcase Hn), Hsound.
Qed.

End FindFieldSound.

Lemma findField_sound_witness :
  @findField asciiStrings Default
    (VStruct (plain "main.T") NoConv
       [(exported "A" "-", VString (plain "string") "secret")] false) "-"
  ≠ Ok (Some (VString (plain "string") "secret")).
Proof.
  apply (proj2 (@findField_sound asciiStrings Default "-"
                  (VStruct (plain "main.T") NoConv
                     [(exported "A" "-", VString (plain "string") "secret")]
                     false))); reflexivity.
Defined.

(** ** Ordinal indexing *)

Section Ordinal.
Context `{NodeFile}.

(** X15.  When [canIndexOrdinally] holds of a value and the value is
    encoded as a node, every key of that node is a decimal index: the
    values the decoder may index by position are the ones the encoder
    keys by position. *)
Theorem ordinal_values_have_index_keys (e : Encoder) (v : data) :
  canIndexOrdinally v = true ->
  forall fl n k,
    encodeValue e fl v = Ok (INode n) ->
    is_Some (n !! k) ->
    exists j : nat, k = Itoa (Z.of_nat j).
Proof.
  induction v as [ v Hleaf | m elems IH | m ek elems IH | m entries IH
                 | m b elem IH | m elem IH | m c fields eqZero IH ]
    using data_nested_ind; intros Hcan fl n k Hn Hk; try discriminate.
  - by destruct v.
  - apply encodeValue_node in Hn as (t & _ & Hn).
    destruct (encodeElemsWith_keys _ _ _ _ _ Hn Hk) as (j & _ & ->).
    by exists j.
  - apply encodeValue_node in Hn as (t & _ & Hn).
    unfold encodeSlice in Hn. case_decide; [discriminate |].
    destruct (encodeElemsWith_keys _ _ _ _ _ Hn Hk) as (j & _ & ->).
    by exists j.
  - destruct elem as [x |]; [| discriminate].
    apply encodeValue_node in Hn as (t & _ & Hn).
    exact (IH Hcan _ n k Hn Hk).
  - destruct elem as [x |]; [| discriminate].
    apply encodeValue_node in Hn as (t & _ & Hn).
    exact (IH Hcan _ n k Hn Hk).
Qed.

End Ordinal.

Lemma ordinal_values_have_index_keys_witness :
  exists j : nat, "1" = Itoa (Z.of_nat j).
Proof.
  apply (@ordinal_values_have_index_keys scalarNodeFile (NewEncoder discard)
           (VPtr (plain "*[]string") false
              (Some (VSlice (plain "[]string") reflect.String
                       [VString (plain "string") "a";
                        VString (plain "string") "b"])))
           eq_refl reflect.flagValueOf
           (<["1" := IString "b"]> (<["0" := IString "a"]> ∅)) "1").
  - vm_compute. reflexivity.
  - eexists. vm_compute. reflexivity.
Defined.
